(** * xmlio: the XML output writer ([xmloutput.cpp])

    A shallow embedding of the class [Output] of [xmloutput.cpp] and the
    properties of its element / attribute state machine.

    Conventions of the embedding.
    - The sink [mStream] is an external [OutputStream]; the model keeps the
      sequence of characters that were handed to its [write] so far.
    - A [const char *] is either the null pointer ([None]) or points to a
      NUL-terminated array, of which the model keeps the characters in front
      of the terminator ([Some str]).  The names stored in [mElements] are
      such pointers; the caller is assumed to leave the arrays alone while
      they are on the stack.
    - [assert] is enabled.  A failed assertion aborts the process: the model
      stops there and keeps the object as it was at that point (whatever was
      written to the sink before the assertion stays written).
    - [mLevel] is an [int].  Incrementing [INT_MAX] is undefined in C++; the
      model reports it as [Undefined] instead of choosing a value. *)

From Stdlib Require Import ZArith List String Ascii Bool Lia DecimalString.
Import ListNotations.

Local Open Scope string_scope.
Local Open Scope Z_scope.

(** ** Characters and C strings *)

Definition TAB : string := String "009"%char EmptyString.
Definition LF : string := String "010"%char EmptyString.
Definition DQUOTE : string := String "034"%char EmptyString.

(** A [const char *] argument. *)
Definition cstr : Type := option string.

(** [strlen]: the number of characters in front of the terminator.  (The
    word-at-a-time routine compiled under [__GNUC__] computes the same
    number; its alignment tricks have no counterpart here.) *)
Definition strlen (str : string) : nat := String.length str.

Definition INT_MAX : Z := 2147483647.
Definition INT_MIN : Z := -2147483648.
Definition UINT_MAX : Z := 4294967295.

(** ** [sprintf] conversions *)

(** [sprintf(tmp, "%d", value)] for an [int]: optional minus sign and the
    decimal digits.  At most 11 characters, so [tmp[50]] is large enough. *)
Definition sprintf_d (value : Z) : string :=
  NilZero.string_of_int (Z.to_int value).

(** What a ["%d"] conversion sees when the variadic argument is an
    [unsigned int]: the same 32 bits read as an [int] (two's complement).
    Values up to [INT_MAX] are read as themselves. *)
Definition int_of_unsigned (value : Z) : Z :=
  if value <=? INT_MAX then value else value - 4294967296.

(** ** The object *)

(** Modelled from the spec: the header [xmloutput.h] is absent.  The source
    only names the enumerator [terse] and tests [mode != terse]; the spec
    calls the other presentation mode [normal]. *)
Inductive Mode : Type := normal | terse.

Definition is_terse (mode : Mode) : bool :=
  match mode with terse => true | normal => false end.

(** Modelled from the spec: the member declarations are in the absent header.
    Their types are read off their uses: [mLevel] is compared with an [int]
    counter, [mElements] is a sequence container of the [name] pointers
    (used through [push_back], [back], [pop_back], [size], [empty]),
    [mAttributes] is a [bool]. *)
Record Output : Type := mkOutput {
  mStream : string;
  mLevel : Z;
  mAttributes : bool;
  mElements : list cstr
}.

(** [Output::Output(stream)], on a sink that has received nothing yet. *)
Definition Output_new : Output :=
  {| mStream := EmptyString; mLevel := 0; mAttributes := false; mElements := [] |}.

(** ** Outcomes of a member function *)

Inductive Result : Type :=
| Returned (o : Output)
| AssertFailed (o : Output)
| Undefined.

Definition Method : Type := Output -> Result.

Definition ret : Method := Returned.

Definition seq (m1 m2 : Method) : Method :=
  fun o =>
    match m1 o with
    | Returned o' => m2 o'
    | AssertFailed o' => AssertFailed o'
    | Undefined => Undefined
    end.

Notation "m1 ;; m2" := (seq m1 m2) (at level 61, right associativity).

(** [assert(e)] for an [e] that does not depend on the object. *)
Definition assert (e : bool) : Method :=
  fun o => if e then Returned o else AssertFailed o.

(** [assert(e)] for an [e] that reads members of the object. *)
Definition assert_this (e : Output -> bool) : Method :=
  fun o => if e o then Returned o else AssertFailed o.

(** A pointer used as a condition. *)
Definition nonnull (p : cstr) : bool :=
  match p with Some _ => true | None => false end.

(** ** Raw output *)

(** [mStream.write(str, len)]: the sink receives the first [len]
    characters of the array. *)
Definition write (str : string) (len : nat) : Method :=
  fun o =>
    Returned {| mStream := mStream o ++ substring 0 len str;
                mLevel := mLevel o;
                mAttributes := mAttributes o;
                mElements := mElements o |}.

(** [assert(str)] decides between the two branches. *)
Definition writeString (str : cstr) : Method :=
  match str with
  | None => AssertFailed
  | Some s => write s (strlen s)
  end.

Definition writeLine (str : cstr) : Method :=
  match str with
  | None => AssertFailed
  | Some s => write s (strlen s) ;; write LF 1
  end.

(** ** The [operator<<] overloads *)

(** [operator<<(const std::string &)]: all [size()] characters. *)
Definition shl_string (str : string) : Method :=
  write str (String.length str).

(** [operator<<(const char * )]. *)
Definition shl_cstr (str : cstr) : Method :=
  assert (nonnull str) ;; writeString str.

(** [operator<<(int)]. *)
Definition shl_int (value : Z) : Method :=
  writeString (Some (sprintf_d value)).

(** [operator<<(unsigned int)]: the conversion is ["%d"] here too. *)
Definition shl_unsigned (value : Z) : Method :=
  writeString (Some (sprintf_d (int_of_unsigned value))).

(** [operator<<(bool)]. *)
Definition shl_bool (value : bool) : Method :=
  writeString (Some (if value then "True" else "False")).

(** A string literal passed to [operator<<] selects the [const char *]
    overload. *)
Definition shl_lit (lit : string) : Method := shl_cstr (Some lit).

(** ** Document and element functions *)

Definition BeginDocument (version encoding : cstr) (standalone : bool) : Method :=
  assert (nonnull version) ;;
  assert (nonnull encoding) ;;
  shl_lit ("<?xml version=" ++ DQUOTE) ;; shl_cstr version ;;
  shl_lit (DQUOTE ++ " encoding=" ++ DQUOTE) ;; shl_cstr encoding ;;
  shl_lit DQUOTE ;;
  shl_lit (" standalone=" ++ DQUOTE) ;;
  shl_lit (if standalone then "yes" else "no") ;;
  shl_lit (DQUOTE ++ "?>" ++ LF).

Definition EndDocument : Method :=
  assert_this (fun o => negb (mAttributes o)) ;;
  assert_this (fun o => match mElements o with [] => true | _ => false end).

(** The loop [for (int i = 0; i < mLevel; i++) ( *this) << "\t";].  The body
    leaves [mLevel] alone, so the loop runs [mLevel] times when that is
    positive and not at all otherwise; [n] counts the rounds still to go. *)
Fixpoint Indent_loop (n : nat) : Method :=
  match n with
  | O => ret
  | S n' => shl_lit TAB ;; Indent_loop n'
  end.

Definition Indent : Method :=
  fun o => Indent_loop (Z.to_nat (mLevel o)) o.

(** [mLevel++]: undefined when the result is not an [int]. *)
Definition incr_mLevel : Method :=
  fun o =>
    if mLevel o <? INT_MAX
    then Returned {| mStream := mStream o;
                     mLevel := mLevel o + 1;
                     mAttributes := mAttributes o;
                     mElements := mElements o |}
    else Undefined.

(** [--mLevel]. *)
Definition decr_mLevel : Method :=
  fun o =>
    if INT_MIN <? mLevel o
    then Returned {| mStream := mStream o;
                     mLevel := mLevel o - 1;
                     mAttributes := mAttributes o;
                     mElements := mElements o |}
    else Undefined.

Definition set_mAttributes (b : bool) : Method :=
  fun o =>
    Returned {| mStream := mStream o;
                mLevel := mLevel o;
                mAttributes := b;
                mElements := mElements o |}.

(** [mElements.push_back(name)]. *)
Definition push_back (name : cstr) : Method :=
  fun o =>
    Returned {| mStream := mStream o;
                mLevel := mLevel o;
                mAttributes := mAttributes o;
                mElements := mElements o ++ [name] |}.

(** [mElements.back()]; calling it on an empty container is undefined. *)
Fixpoint back (l : list cstr) : option cstr :=
  match l with
  | [] => None
  | [x] => Some x
  | _ :: l' => back l'
  end.

(** [mElements.pop_back()]. *)
Definition pop_back : Method :=
  fun o =>
    match mElements o with
    | [] => Undefined
    | _ :: _ =>
        Returned {| mStream := mStream o;
                    mLevel := mLevel o;
                    mAttributes := mAttributes o;
                    mElements := removelast (mElements o) |}
    end.

Definition BeginElement (name : cstr) (mode : Mode) : Method :=
  assert (nonnull name) ;;
  assert_this (fun o => negb (mAttributes o)) ;;
  Indent ;;
  incr_mLevel ;;
  shl_lit "<" ;; shl_cstr name ;; shl_lit ">" ;;
  (if is_terse mode then ret else shl_lit LF) ;;
  push_back name.

Definition BeginElementAttrs (name : cstr) : Method :=
  assert (nonnull name) ;;
  assert_this (fun o => negb (mAttributes o)) ;;
  Indent ;;
  incr_mLevel ;;
  shl_lit "<" ;; shl_cstr name ;;
  set_mAttributes true ;;
  push_back name.

Definition EndAttrs (mode : Mode) : Method :=
  assert_this mAttributes ;;
  set_mAttributes false ;;
  shl_lit ">" ;;
  (if is_terse mode then ret else shl_lit LF).

Definition EndElement (mode : Mode) : Method :=
  assert_this (fun o => (0 <? List.length (mElements o))%nat) ;;
  assert_this (fun o => negb (mAttributes o)) ;;
  assert_this (fun o => 0 <? mLevel o) ;;
  decr_mLevel ;;
  (if is_terse mode then ret else Indent) ;;
  (fun o =>
     match back (mElements o) with
     | None => Undefined
     | Some name =>
         (pop_back ;;
          shl_lit "</" ;; shl_cstr name ;; shl_lit ">" ;; shl_lit LF) o
     end).

(** ** [WriteElement] and [WriteAttr] overloads *)

Definition WriteElement_string (name : cstr) (value : string) : Method :=
  assert (nonnull name) ;;
  BeginElement name terse ;;
  shl_string value ;;
  EndElement terse.

Definition WriteElement_cstr (name : cstr) (value : cstr) : Method :=
  assert (nonnull name) ;;
  assert (nonnull value) ;;
  BeginElement name terse ;;
  shl_cstr value ;;
  EndElement terse.

Definition WriteElement_int (name : cstr) (value : Z) : Method :=
  assert (nonnull name) ;;
  BeginElement name terse ;;
  shl_int value ;;
  EndElement terse.

Definition WriteElement_unsigned (name : cstr) (value : Z) : Method :=
  assert (nonnull name) ;;
  BeginElement name terse ;;
  shl_unsigned value ;;
  EndElement terse.

Definition WriteElement_bool (name : cstr) (value : bool) : Method :=
  assert (nonnull name) ;;
  BeginElement name terse ;;
  shl_bool value ;;
  EndElement terse.

Definition WriteAttr_string (name : cstr) (value : string) : Method :=
  assert_this mAttributes ;;
  assert (nonnull name) ;;
  shl_lit " " ;; shl_cstr name ;; shl_lit ("=" ++ DQUOTE) ;;
  shl_string value ;; shl_lit DQUOTE.

Definition WriteAttr_cstr (name : cstr) (value : cstr) : Method :=
  assert_this mAttributes ;;
  assert (nonnull name) ;;
  assert (nonnull value) ;;
  shl_lit " " ;; shl_cstr name ;; shl_lit ("=" ++ DQUOTE) ;;
  shl_cstr value ;; shl_lit DQUOTE.

Definition WriteAttr_int (name : cstr) (value : Z) : Method :=
  assert_this mAttributes ;;
  assert (nonnull name) ;;
  shl_lit " " ;; shl_cstr name ;; shl_lit ("=" ++ DQUOTE) ;;
  shl_int value ;; shl_lit DQUOTE.

Definition WriteAttr_bool (name : cstr) (value : bool) : Method :=
  assert_this mAttributes ;;
  assert (nonnull name) ;;
  shl_lit " " ;; shl_cstr name ;; shl_lit ("=" ++ DQUOTE) ;;
  shl_bool value ;; shl_lit DQUOTE.

(** *** The [double] overloads

    [double] and the ["%g"] conversion of the C library are left open: the
    functions below work for any rendering [sprintf_g] of the values. *)
Section FloatingPoint.

Variable double : Type.
Variable sprintf_g : double -> string.

(** [operator<<(double)]. *)
Definition shl_double (value : double) : Method :=
  writeString (Some (sprintf_g value)).

Definition WriteElement_double (name : cstr) (value : double) : Method :=
  assert (nonnull name) ;;
  BeginElement name terse ;;
  shl_double value ;;
  EndElement terse.

Definition WriteAttr_double (name : cstr) (value : double) : Method :=
  assert_this mAttributes ;;
  assert (nonnull name) ;;
  shl_lit " " ;; shl_cstr name ;; shl_lit ("=" ++ DQUOTE) ;;
  shl_double value ;; shl_lit DQUOTE.

End FloatingPoint.

Arguments shl_double {double} sprintf_g value.
Arguments WriteElement_double {double} sprintf_g name value.
Arguments WriteAttr_double {double} sprintf_g name value.

(** *** Overload resolution

    The value kinds a call can pass, and the overload each of them selects.
    [WriteAttr] has no [unsigned int] overload. *)
Section Calls.

Variable double : Type.
Variable sprintf_g : double -> string.

Inductive Value : Type :=
| VString (str : string)
| VCStr (str : cstr)
| VInt (value : Z)
| VUnsigned (value : Z)
| VDouble (value : double)
| VBool (value : bool).

Inductive AttrValue : Type :=
| AString (str : string)
| ACStr (str : cstr)
| AInt (value : Z)
| ADouble (value : double)
| ABool (value : bool).

Definition shl (v : Value) : Method :=
  match v with
  | VString str => shl_string str
  | VCStr str => shl_cstr str
  | VInt value => shl_int value
  | VUnsigned value => shl_unsigned value
  | VDouble value => shl_double sprintf_g value
  | VBool value => shl_bool value
  end.

Definition WriteElement (name : cstr) (v : Value) : Method :=
  match v with
  | VString str => WriteElement_string name str
  | VCStr str => WriteElement_cstr name str
  | VInt value => WriteElement_int name value
  | VUnsigned value => WriteElement_unsigned name value
  | VDouble value => WriteElement_double sprintf_g name value
  | VBool value => WriteElement_bool name value
  end.

Definition WriteAttr (name : cstr) (v : AttrValue) : Method :=
  match v with
  | AString str => WriteAttr_string name str
  | ACStr str => WriteAttr_cstr name str
  | AInt value => WriteAttr_int name value
  | ADouble value => WriteAttr_double sprintf_g name value
  | ABool value => WriteAttr_bool name value
  end.

(** The calls a client can make on an [Output].  ([write] itself only
    forwards a buffer and a length to the sink; it is reached through the
    functions that pass it the length of the buffer.) *)
Inductive Call : Type :=
| CwriteString (str : cstr)
| CwriteLine (str : cstr)
| Cshl (v : Value)
| CBeginDocument (version encoding : cstr) (standalone : bool)
| CEndDocument
| CIndent
| CBeginElement (name : cstr) (mode : Mode)
| CBeginElementAttrs (name : cstr)
| CEndAttrs (mode : Mode)
| CEndElement (mode : Mode)
| CWriteElement (name : cstr) (v : Value)
| CWriteAttr (name : cstr) (v : AttrValue).

Definition exec (c : Call) : Method :=
  match c with
  | CwriteString str => writeString str
  | CwriteLine str => writeLine str
  | Cshl v => shl v
  | CBeginDocument version encoding standalone =>
      BeginDocument version encoding standalone
  | CEndDocument => EndDocument
  | CIndent => Indent
  | CBeginElement name mode => BeginElement name mode
  | CBeginElementAttrs name => BeginElementAttrs name
  | CEndAttrs mode => EndAttrs mode
  | CEndElement mode => EndElement mode
  | CWriteElement name v => WriteElement name v
  | CWriteAttr name v => WriteAttr name v
  end.

(** A sequence of calls on the same object, in order. *)
Fixpoint run (calls : list Call) : Method :=
  match calls with
  | [] => ret
  | c :: calls' => exec c ;; run calls'
  end.

(** *** What [operator<<] sends

    [formatted] is the text the code sends for a value, for each kind as
    its [operator<<] renders it (["%d"] for [unsigned int] included); a
    null pointer has none. *)
Definition formatted (v : Value) : option string :=
  match v with
  | VString str => Some str
  | VCStr str => str
  | VInt value => Some (sprintf_d value)
  | VUnsigned value => Some (sprintf_d (int_of_unsigned value))
  | VDouble value => Some (sprintf_g value)
  | VBool value => Some (if value then "True" else "False")
  end.

(** The text of an attribute value, likewise. *)
Definition attr_formatted (v : AttrValue) : option string :=
  match v with
  | AString str => Some str
  | ACStr str => str
  | AInt value => Some (sprintf_d value)
  | ADouble value => Some (sprintf_g value)
  | ABool value => Some (if value then "True" else "False")
  end.

End Calls.

Arguments VString {double}.
Arguments VCStr {double}.
Arguments VInt {double}.
Arguments VUnsigned {double}.
Arguments VDouble {double}.
Arguments VBool {double}.
Arguments AString {double}.
Arguments ACStr {double}.
Arguments AInt {double}.
Arguments ADouble {double}.
Arguments ABool {double}.
Arguments shl {double} sprintf_g v.
Arguments WriteElement {double} sprintf_g name v.
Arguments WriteAttr {double} sprintf_g name v.
Arguments CwriteString {double}.
Arguments CwriteLine {double}.
Arguments Cshl {double}.
Arguments CBeginDocument {double}.
Arguments CEndDocument {double}.
Arguments CIndent {double}.
Arguments CBeginElement {double}.
Arguments CBeginElementAttrs {double}.
Arguments CEndAttrs {double}.
Arguments CEndElement {double}.
Arguments CWriteElement {double}.
Arguments CWriteAttr {double}.
Arguments exec {double} sprintf_g c.
Arguments run {double} sprintf_g calls.
Arguments formatted {double} sprintf_g v.
Arguments attr_formatted {double} sprintf_g v.

(** ** Specification vocabulary *)

(** The sink receives [text]; nothing else changes. *)
Definition emit (text : string) (o : Output) : Output :=
  {| mStream := mStream o ++ text;
     mLevel := mLevel o;
     mAttributes := mAttributes o;
     mElements := mElements o |}.

Definition emit_text (text : string) : Method :=
  fun o => Returned (emit text o).

(** The formatted value in the spec's words ("Value formatting semantics"):
    integers, signed or unsigned, as their decimal digits with a leading
    [-] for negatives only; floating point in the ["%g"] style; strings as
    they are; booleans as [True] and [False].  A null pointer is not a
    string and has no formatted value. *)
Definition spec_formatted {double : Type} (sprintf_g : double -> string)
           (v : Value double) : option string :=
  match v with
  | VString str => Some str
  | VCStr str => str
  | VInt value => Some (sprintf_d value)
  | VUnsigned value => Some (sprintf_d value)
  | VDouble value => Some (sprintf_g value)
  | VBool value => Some (if value then "True" else "False")
  end.

(** An [unsigned int] value is one an [int] can hold as well; values of
    the other kinds are not concerned. *)
Definition unsigned_fits_int {double : Type} (v : Value double) : Prop :=
  match v with
  | VUnsigned value => value <= INT_MAX
  | _ => True
  end.

(** The spec's three steps for [writeElement], on the text of the value. *)
Definition writeElement_spec (name : cstr) (text : string) : Method :=
  BeginElement name terse ;; emit_text text ;; EndElement terse.

(** The attribute [name="text"] with its leading blank. *)
Definition attribute (name text : string) : string :=
  " " ++ name ++ "=" ++ DQUOTE ++ text ++ DQUOTE.

(** Attribute writes only, one call per (name, value) pair. *)
Definition write_attrs {double : Type} (attrs : list (cstr * AttrValue double))
  : list (Call double) :=
  map (fun a => CWriteAttr (fst a) (snd a)) attrs.

(** The XML declaration. *)
Definition prologue (version encoding : string) (standalone : bool) : string :=
  "<?xml version=" ++ DQUOTE ++ version ++ DQUOTE
  ++ " encoding=" ++ DQUOTE ++ encoding ++ DQUOTE
  ++ " standalone=" ++ DQUOTE ++ (if standalone then "yes" else "no") ++ DQUOTE
  ++ "?>" ++ LF.

Definition value_nonnull {double : Type} (v : Value double) : bool :=
  match v with
  | VCStr str => nonnull str
  | _ => true
  end.

Definition attr_value_nonnull {double : Type} (v : AttrValue double) : bool :=
  match v with
  | ACStr str => nonnull str
  | _ => true
  end.

(** What the assertions of each call ask of its arguments and of the
    object it is made on. *)
Definition pre {double : Type} (c : Call double) (o : Output) : bool :=
  match c with
  | CwriteString str | CwriteLine str => nonnull str
  | Cshl v => value_nonnull v
  | CBeginDocument version encoding _ => nonnull version && nonnull encoding
  | CEndDocument =>
      negb (mAttributes o) && match mElements o with [] => true | _ => false end
  | CIndent => true
  | CBeginElement name _ | CBeginElementAttrs name =>
      nonnull name && negb (mAttributes o)
  | CEndAttrs _ => mAttributes o
  | CEndElement _ =>
      (0 <? List.length (mElements o))%nat && negb (mAttributes o)
      && (0 <? mLevel o)
  | CWriteElement name v =>
      nonnull name && value_nonnull v && negb (mAttributes o)
  | CWriteAttr name v =>
      mAttributes o && nonnull name && attr_value_nonnull v
  end.

(** Every pointer on the element stack is a name. *)
Definition names_nonnull (o : Output) : Prop :=
  Forall (fun p => nonnull p = true) (mElements o).

(** A stand-in for ["%g"] on a one-point [double], for the examples that
    pass no floating-point value. *)
Definition sprintf_g_unit (value : unit) : string := "0".

(** [n] indentation units. *)
Fixpoint tabs (n : nat) : string :=
  match n with
  | O => EmptyString
  | S n' => TAB ++ tabs n'
  end.

(** The call signalled a contract violation. *)
Definition raises (r : Result) : Prop := exists o, r = AssertFailed o.

(** The call came back. *)
Definition returns (r : Result) : Prop := exists o, r = Returned o.

(** The nesting state: depth, open elements, attribute window. *)
Definition same_nesting (o o' : Output) : Prop :=
  mLevel o' = mLevel o /\
  mElements o' = mElements o /\
  mAttributes o' = mAttributes o.

(** Where the call ended, whether it returned or stopped at an assertion,
    the object satisfies [P]; the call did nothing undefined. *)
Definition ends_in (P : Output -> Prop) (r : Result) : Prop :=
  match r with
  | Returned o' | AssertFailed o' => P o'
  | Undefined => False
  end.

(** [m] leaves the part of the object that [view] shows as it was. *)
Definition preserves {A : Type} (view : Output -> A) (m : Method) : Prop :=
  forall o, ends_in (fun o' => view o' = view o) (m o).

Definition stack_view (o : Output) : Z * list cstr :=
  (mLevel o, mElements o).

Definition nesting_view (o : Output) : Z * list cstr * bool :=
  (mLevel o, mElements o, mAttributes o).

(** The state [BeginElement] leaves behind when it returns. *)
Definition opened (name : string) (mode : Mode) (o : Output) : Output :=
  {| mStream := mStream o ++ tabs (Z.to_nat (mLevel o)) ++ "<" ++ name
                ++ ">" ++ (if is_terse mode then EmptyString else LF);
     mLevel := mLevel o + 1;
     mAttributes := false;
     mElements := mElements o ++ [Some name] |}.

(** The state [BeginElementAttrs] leaves behind when it returns. *)
Definition opened_attrs (name : string) (o : Output) : Output :=
  {| mStream := mStream o ++ tabs (Z.to_nat (mLevel o)) ++ "<" ++ name;
     mLevel := mLevel o + 1;
     mAttributes := true;
     mElements := mElements o ++ [Some name] |}.

(** The state [EndAttrs] leaves behind when it returns. *)
Definition attrs_closed (mode : Mode) (o : Output) : Output :=
  {| mStream := mStream o ++ ">" ++ (if is_terse mode then EmptyString else LF);
     mLevel := mLevel o;
     mAttributes := false;
     mElements := mElements o |}.

(** The state [EndElement] leaves behind when it returns, [name] being the
    last entry of [mElements] and [rest] the entries in front of it. *)
Definition closed (name : string) (rest : list cstr) (mode : Mode) (o : Output) : Output :=
  {| mStream := mStream o
                ++ (if is_terse mode then EmptyString
                    else tabs (Z.to_nat (mLevel o - 1)))
                ++ "</" ++ name ++ ">" ++ LF;
     mLevel := mLevel o - 1;
     mAttributes := false;
     mElements := rest |}.

(** [openElements] has as many entries as [depth] says. *)
Definition depth_matches (o : Output) : Prop :=
  Z.of_nat (List.length (mElements o)) = mLevel o.

(** What a call that returned did to depth and open elements. *)
Definition nesting_effect {double : Type} (c : Call double) (o o' : Output) : Prop :=
  match c with
  | CBeginElement name _ | CBeginElementAttrs name =>
      mLevel o' = mLevel o + 1 /\ mElements o' = (mElements o ++ [name])%list
  | CEndElement _ =>
      mLevel o' = mLevel o - 1 /\
      exists name, mElements o = (mElements o' ++ [name])%list
  | _ =>
      mLevel o' = mLevel o /\ mElements o' = mElements o
  end.

(** ** Names held by pointer

    [BeginElement] and [BeginElementAttrs] push the pointer [name] itself;
    [EndElement] reads the array it points to when the element is closed.
    The definitions above keep, for each stacked pointer, the characters
    its array holds.  Here the stack keeps the pointers, and every call
    is made with the contents the caller's arrays have at that moment. *)

Definition address : Type := Z.

(** What the caller's arrays hold: the C string at each address. *)
Definition arrays : Type := address -> string.

(** A [const char *] on the stack: a pointer to one of the caller's
    arrays, or a pointer that reads the same whenever it is read (the null
    pointer, or characters that never change, such as a string literal). *)
Inductive pointer : Type :=
| InArray (a : address)
| Fixed (p : cstr).

Definition read (mem : arrays) (p : pointer) : cstr :=
  match p with
  | InArray a => Some (mem a)
  | Fixed p => p
  end.

(** The object with [mElements] as a sequence of pointers; [stream],
    [level] and [attributes] are [mStream], [mLevel] and [mAttributes]. *)
Record Shared : Type := mkShared {
  stream : string;
  level : Z;
  attributes : bool;
  pointers : list pointer
}.

Definition Shared_new : Shared :=
  {| stream := EmptyString; level := 0; attributes := false; pointers := [] |}.

Inductive SharedResult : Type :=
| SReturned (s : Shared)
| SAssertFailed (s : Shared)
| SUndefined.

(** The object as a call finds it while the arrays hold [mem]. *)
Definition as_read (mem : arrays) (s : Shared) : Output :=
  {| mStream := stream s;
     mLevel := level s;
     mAttributes := attributes s;
     mElements := map (read mem) (pointers s) |}.

(** A call: [BeginElement] or [BeginElementAttrs] with a name in one of
    the caller's arrays, or any call whose pointer arguments are given by
    what they point to (they are read during the call, or never change). *)
Inductive SharedCall (double : Type) : Type :=
| BeginElementAt (name : address) (mode : Mode)
| BeginElementAttrsAt (name : address)
| Other (c : Call double).

Arguments BeginElementAt {double}.
Arguments BeginElementAttrsAt {double}.
Arguments Other {double}.

(** The call as it reads while the arrays hold [mem]. *)
Definition settle {double : Type} (mem : arrays) (c : SharedCall double)
  : Call double :=
  match c with
  | BeginElementAt name mode => CBeginElement (Some (mem name)) mode
  | BeginElementAttrsAt name => CBeginElementAttrs (Some (mem name))
  | Other c => c
  end.

(** The pointer a call hands to [push_back], for the calls that push. *)
Definition pushed_by {double : Type} (c : SharedCall double) : pointer :=
  match c with
  | BeginElementAt name _ | BeginElementAttrsAt name => InArray name
  | Other (CBeginElement name _) | Other (CBeginElementAttrs name)
  | Other (CWriteElement name _) => Fixed name
  | Other _ => Fixed None
  end.

(** The object after a call that left [o'], on a stack that was [old]: a
    call pushes at most one pointer at the back and pops at most one from
    it, so the number of entries tells which it did. *)
Definition restack (old : list pointer) (pushed : pointer) (o' : Output) : Shared :=
  {| stream := mStream o';
     level := mLevel o';
     attributes := mAttributes o';
     pointers :=
       if (List.length (mElements o') =? List.length old)%nat then old
       else if (List.length old <? List.length (mElements o'))%nat
            then old ++ [pushed]
            else removelast old |}.

(** One call, made while the arrays hold [mem]. *)
Definition exec_shared {double : Type} (sprintf_g : double -> string)
           (mem : arrays) (c : SharedCall double) (s : Shared) : SharedResult :=
  match exec sprintf_g (settle mem c) (as_read mem s) with
  | Returned o' => SReturned (restack (pointers s) (pushed_by c) o')
  | AssertFailed o' => SAssertFailed (restack (pointers s) (pushed_by c) o')
  | Undefined => SUndefined
  end.

(** Calls in a row, each with the contents the arrays have when it is
    made: the caller may have written to them in between. *)
Fixpoint run_shared {double : Type} (sprintf_g : double -> string)
         (trace : list (arrays * SharedCall double)) (s : Shared) : SharedResult :=
  match trace with
  | [] => SReturned s
  | (mem, c) :: trace' =>
      match exec_shared sprintf_g mem c s with
      | SReturned s' => run_shared sprintf_g trace' s'
      | r => r
      end
  end.

(** Calls in a row while the caller leaves the arrays alone. *)
Definition arrays_left_alone {double : Type} (mem : arrays)
           (calls : list (SharedCall double)) : list (arrays * SharedCall double) :=
  map (pair mem) calls.

(** The sink receives [text]; nothing else changes. *)
Definition sent (text : string) (s : Shared) : Shared :=
  {| stream := stream s ++ text;
     level := level s;
     attributes := attributes s;
     pointers := pointers s |}.

(** ** Documents

    A document body as a client writes it: text sent with [operator<<],
    one-line elements written with [WriteElement], and elements opened with
    [BeginElement] or with [BeginElementAttrs], [WriteAttr]... and
    [EndAttrs], closed with [EndElement] after their body.  The names of
    the elements that stay open over other calls are in the caller's
    arrays. *)
Local Unset Elimination Schemes.

Inductive Item (double : Type) : Type :=
| Text (v : Value double)
| Leaf (name : string) (v : Value double)
| Elem (name : address) (mode closing : Mode) (body : list (Item double))
| ElemAttrs (name : address) (attrs : list (string * AttrValue double))
            (mode closing : Mode) (body : list (Item double)).

Local Set Elimination Schemes.

Arguments Text {double}.
Arguments Leaf {double}.
Arguments Elem {double}.
Arguments ElemAttrs {double}.

(** The calls that write an item, in order. *)
Fixpoint calls_of {double : Type} (it : Item double) : list (SharedCall double) :=
  match it with
  | Text v => [Other (Cshl v)]
  | Leaf name v => [Other (CWriteElement (Some name) v)]
  | Elem name mode closing body =>
      BeginElementAt name mode
      :: flat_map calls_of body ++ [Other (CEndElement closing)]
  | ElemAttrs name attrs mode closing body =>
      BeginElementAttrsAt name
      :: map (fun a => Other (CWriteAttr (Some (fst a)) (snd a))) attrs
      ++ Other (CEndAttrs mode)
      :: flat_map calls_of body ++ [Other (CEndElement closing)]
  end.

(** No null [const char *] among the values. *)
Fixpoint values_nonnull {double : Type} (it : Item double) : bool :=
  match it with
  | Text v | Leaf _ v => value_nonnull v
  | Elem _ _ _ body => forallb values_nonnull body
  | ElemAttrs _ attrs _ _ body =>
      forallb (fun a => attr_value_nonnull (snd a)) attrs
      && forallb values_nonnull body
  end.

(** How many elements are open at the deepest point of an item. *)
Fixpoint nesting {double : Type} (it : Item double) : Z :=
  match it with
  | Text _ => 0
  | Leaf _ _ => 1
  | Elem _ _ _ body | ElemAttrs _ _ _ _ body =>
      1 + fold_right (fun i m => Z.max (nesting i) m) 0 body
  end.

Section Rendering.

Variable double : Type.
Variable sprintf_g : double -> string.

Definition text_of (v : Value double) : string :=
  match formatted sprintf_g v with
  | Some text => text
  | None => EmptyString
  end.

Definition attr_text_of (v : AttrValue double) : string :=
  match attr_formatted sprintf_g v with
  | Some text => text
  | None => EmptyString
  end.

Definition line_end (mode : Mode) : string :=
  if is_terse mode then EmptyString else LF.

Definition indent_unless_terse (mode : Mode) (d : nat) : string :=
  if is_terse mode then EmptyString else tabs d.

Definition render_attrs (attrs : list (string * AttrValue double)) : string :=
  fold_right (fun a rest => attribute (fst a) (attr_text_of (snd a)) ++ rest)
             EmptyString attrs.

(** The markup of an item written at depth [d], with the element names
    the arrays [mem] hold. *)
Fixpoint render (mem : arrays) (d : nat) (it : Item double) : string :=
  match it with
  | Text v => text_of v
  | Leaf name v =>
      tabs d ++ "<" ++ name ++ ">" ++ text_of v ++ "</" ++ name ++ ">" ++ LF
  | Elem name mode closing body =>
      tabs d ++ "<" ++ mem name ++ ">" ++ line_end mode
      ++ fold_right (fun i rest => render mem (S d) i ++ rest) EmptyString body
      ++ indent_unless_terse closing d ++ "</" ++ mem name ++ ">" ++ LF
  | ElemAttrs name attrs mode closing body =>
      tabs d ++ "<" ++ mem name ++ render_attrs attrs ++ ">" ++ line_end mode
      ++ fold_right (fun i rest => render mem (S d) i ++ rest) EmptyString body
      ++ indent_unless_terse closing d ++ "</" ++ mem name ++ ">" ++ LF
  end.

Definition render_all (mem : arrays) (d : nat) (items : list (Item double)) : string :=
  fold_right (fun i rest => render mem d i ++ rest) EmptyString items.

End Rendering.

Arguments text_of {double} sprintf_g v.
Arguments attr_text_of {double} sprintf_g v.
Arguments render_attrs {double} sprintf_g attrs.
Arguments render {double} sprintf_g mem d it.
Arguments render_all {double} sprintf_g mem d items.

Definition nesting_all {double : Type} (items : list (Item double)) : Z :=
  fold_right (fun i m => Z.max (nesting i) m) 0 items.

(** What writing an item does while the caller leaves the arrays alone, on
    an object outside the attribute window and with room for the nesting
    of the item: all calls return, the sink has received the markup of the
    item, the members, the stack of pointers included, are what they
    were. *)
Definition writes_markup {double : Type} (sprintf_g : double -> string)
           (mem : arrays) (it : Item double) : Prop :=
  forall s : Shared,
    values_nonnull it = true ->
    attributes s = false ->
    0 <= level s ->
    level s + nesting it <= INT_MAX ->
    run_shared sprintf_g (arrays_left_alone mem (calls_of it)) s
    = SReturned (sent (render sprintf_g mem (Z.to_nat (level s)) it) s).

(** Arrays for examples: [root] at address 1, [item] at address 2. *)
Definition sample_arrays (a : address) : string :=
  if a =? 1 then "root" else if a =? 2 then "item" else EmptyString.

(** The same arrays after the caller has written [rxxt] over [root]. *)
Definition sample_arrays_overwritten (a : address) : string :=
  if a =? 1 then "rxxt" else sample_arrays a.

(** Calls that only send characters to the sink. *)
Definition output_only {double : Type} (c : Call double) : bool :=
  match c with
  | CwriteString _ | CwriteLine _ | Cshl _ | CBeginDocument _ _ _ | CIndent => true
  | _ => false
  end.

(** Calls that assert [!mAttributes]. *)
Definition outside_window_only {double : Type} (c : Call double) : bool :=
  match c with
  | CBeginElement _ _ | CBeginElementAttrs _ | CEndElement _
  | CWriteElement _ _ | CEndDocument => true
  | _ => false
  end.

(** Calls that assert [mAttributes]. *)
Definition inside_window_only {double : Type} (c : Call double) : bool :=
  match c with
  | CEndAttrs _ | CWriteAttr _ _ => true
  | _ => false
  end.

(** ** [strlen] on a byte-addressed memory

    The routine compiled under [__GNUC__], on a memory that gives the byte
    at every address.  Addresses are integers; a [char *] and an
    [unsigned long int *] are the address they hold.  [sizeof_long] is
    [sizeof (unsigned long int)] and [big_endian] the byte order in which a
    longword is read, both left to the platform.  The two loops run on
    [fuel]: one unit per round. *)
Module Memory.

Inductive strlen_result : Type :=
| Length (n : Z)
| Aborted
| Running.

Section WordAtATime.

Variable mem : Z -> ascii.
Variable sizeof_long : Z.
Variable big_endian : bool.

(** [*p] for a [const char *p], compared with zero only: the value of the
    byte as an unsigned number. *)
Definition char_at (p : Z) : Z := Z.of_N (N_of_ascii (mem p)).

(** Arithmetic of [unsigned long int]. *)
Definition ulong (x : Z) : Z := x mod 2 ^ (8 * sizeof_long).

(** The bytes at [p], [p + 1], ... read with the first one lowest. *)
Fixpoint bytes_le (n : nat) (p : Z) : Z :=
  match n with
  | O => 0
  | S n' => char_at p + 256 * bytes_le n' (p + 1)
  end.

(** The same bytes read with the first one highest. *)
Fixpoint bytes_be (n : nat) (p : Z) (acc : Z) : Z :=
  match n with
  | O => acc
  | S n' => bytes_be n' (p + 1) (256 * acc + char_at p)
  end.

(** [*longword_ptr]. *)
Definition load_long (p : Z) : Z :=
  if big_endian
  then bytes_be (Z.to_nat sizeof_long) p 0
  else bytes_le (Z.to_nat sizeof_long) p.

(** [((longword - lomagic) & ~longword & himagic) != 0]. *)
Definition zero_byte_test (longword himagic lomagic : Z) : bool :=
  negb (Z.land (Z.land (ulong (longword - lomagic)) (ulong (Z.lnot longword)))
               himagic =? 0).

(** The loop [for (;;)] over the longwords. *)
Fixpoint word_loop (fuel : nat) (str longword_ptr himagic lomagic : Z)
  : strlen_result :=
  match fuel with
  | O => Running
  | S fuel' =>
      let longword := load_long longword_ptr in
      let longword_ptr := longword_ptr + sizeof_long in
      if zero_byte_test longword himagic lomagic then
        let cp := longword_ptr - sizeof_long in
        if char_at cp =? 0 then Length (cp - str)
        else if char_at (cp + 1) =? 0 then Length (cp - str + 1)
        else if char_at (cp + 2) =? 0 then Length (cp - str + 2)
        else if char_at (cp + 3) =? 0 then Length (cp - str + 3)
        else if 4 <? sizeof_long then
          if char_at (cp + 4) =? 0 then Length (cp - str + 4)
          else if char_at (cp + 5) =? 0 then Length (cp - str + 5)
          else if char_at (cp + 6) =? 0 then Length (cp - str + 6)
          else if char_at (cp + 7) =? 0 then Length (cp - str + 7)
          else word_loop fuel' str longword_ptr himagic lomagic
        else word_loop fuel' str longword_ptr himagic lomagic
      else word_loop fuel' str longword_ptr himagic lomagic
  end.

(** [himagic] and [lomagic] as the routine sets them: the 32-bit patterns,
    doubled by two shifts when a longword has more than four bytes. *)
Definition himagic : Z :=
  let himagic := 2155905152 in
  if 4 <? sizeof_long
  then Z.lor (ulong (Z.shiftl (ulong (Z.shiftl himagic 16)) 16)) himagic
  else himagic.

Definition lomagic : Z :=
  let lomagic := 16843009 in
  if 4 <? sizeof_long
  then Z.lor (ulong (Z.shiftl (ulong (Z.shiftl lomagic 16)) 16)) lomagic
  else lomagic.

(** What follows the first loop, from the aligned [char_ptr] on. *)
Definition from_aligned (fuel : nat) (str char_ptr : Z) : strlen_result :=
  let longword_ptr := char_ptr in
  if 8 <? sizeof_long then Aborted
  else word_loop fuel str longword_ptr himagic lomagic.

(** The first loop: one character at a time until [char_ptr] is a
    multiple of [sizeof (longword)]. *)
Fixpoint char_loop (fuel : nat) (str char_ptr : Z) : strlen_result :=
  match fuel with
  | O => Running
  | S fuel' =>
      if negb (Z.land char_ptr (sizeof_long - 1) =? 0) then
        if char_at char_ptr =? 0 then Length (char_ptr - str)
        else char_loop fuel' str (char_ptr + 1)
      else from_aligned fuel' str char_ptr
  end.

Definition strlen (fuel : nat) (str : Z) : strlen_result :=
  char_loop fuel str str.

(** [str + n] is the first address from [str] on that holds a zero byte. *)
Definition first_zero (str n : Z) : Prop :=
  0 <= n /\
  char_at (str + n) = 0 /\
  forall i, 0 <= i < n -> char_at (str + i) <> 0.

(** No zero byte from [str] up to, not including, [p]. *)
Definition clear_to (str p : Z) : Prop :=
  forall a, str <= a < p -> char_at a <> 0.

(** The characters of [s] sit at [p], [p + 1], ... and a zero byte comes
    after them; none of them is a zero byte itself. *)
Fixpoint holds_string (p : Z) (s : string) : Prop :=
  match s with
  | EmptyString => char_at p = 0
  | String c s' => mem p = c /\ char_at p <> 0 /\ holds_string (p + 1) s'
  end.

End WordAtATime.

(** A memory for examples: [s] followed by zero bytes at address [p], and
    the byte 1 everywhere else. *)
Definition sample_memory (p : Z) (s : string) (a : Z) : ascii :=
  if (a <? p) then "001"%char
  else match String.get (Z.to_nat (a - p)) s with
       | Some c => c
       | None => if a <? p + Z.of_nat (String.length s) + 8 then "000"%char
                 else "001"%char
       end.

End Memory.

(** ** Strings *)

Lemma append_assoc (a b c : string) : (a ++ b) ++ c = a ++ (b ++ c).
Proof.
  induction a as [|ch a IH]; simpl; [reflexivity | now rewrite IH].
Qed.

Lemma append_nil_r (a : string) : a ++ EmptyString = a.
Proof.
  induction a as [|ch a IH]; simpl; [reflexivity | now rewrite IH].
Qed.

Lemma substring_whole (s : string) : substring 0 (String.length s) s = s.
Proof.
  induction s as [|ch s IH]; simpl; [reflexivity | now rewrite IH].
Qed.

Lemma tabs_length (n : nat) : String.length (tabs n) = n.
Proof.
  induction n as [|n IH]; simpl; [reflexivity | now rewrite IH].
Qed.

(** ** Each output step in closed form *)

Lemma seq_apply (m1 m2 : Method) (o : Output) :
  (m1 ;; m2) o =
  match m1 o with
  | Returned o' => m2 o'
  | AssertFailed o' => AssertFailed o'
  | Undefined => Undefined
  end.
Proof. reflexivity. Qed.

Lemma seq_returned (m1 m2 : Method) (o o' : Output) :
  m1 o = Returned o' -> (m1 ;; m2) o = m2 o'.
Proof. intros H. rewrite seq_apply, H. reflexivity. Qed.

Lemma seq_ext (m1 m2 m2' : Method) :
  (forall o, m2 o = m2' o) -> forall o, (m1 ;; m2) o = (m1 ;; m2') o.
Proof.
  intros H o. rewrite !seq_apply. destruct (m1 o); auto.
Qed.

Lemma emit_emit (a b : string) (o : Output) :
  emit b (emit a o) = emit (a ++ b) o.
Proof.
  unfold emit; simpl. now rewrite append_assoc.
Qed.

Lemma emit_nil (o : Output) : emit EmptyString o = o.
Proof.
  destruct o; unfold emit; simpl. now rewrite append_nil_r.
Qed.

Lemma write_whole (s : string) (o : Output) :
  write s (strlen s) o = Returned (emit s o).
Proof.
  unfold write, strlen, emit. now rewrite substring_whole.
Qed.

Lemma writeString_emit (s : string) (o : Output) :
  writeString (Some s) o = Returned (emit s o).
Proof. apply write_whole. Qed.

Lemma shl_cstr_emit (s : string) (o : Output) :
  shl_cstr (Some s) o = Returned (emit s o).
Proof. apply write_whole. Qed.

Lemma shl_lit_emit (s : string) (o : Output) :
  shl_lit s o = Returned (emit s o).
Proof. apply write_whole. Qed.

Lemma shl_string_emit (s : string) (o : Output) :
  shl_string s o = Returned (emit s o).
Proof. apply write_whole. Qed.

Lemma shl_emit {double : Type} (sprintf_g : double -> string)
      (v : Value double) (text : string) (o : Output) :
  formatted sprintf_g v = Some text ->
  shl sprintf_g v o = Returned (emit text o).
Proof.
  destruct v as [str|[str|]|value|value|value|value]; simpl;
    intros H; inversion H; subst; apply write_whole.
Qed.

Lemma Indent_loop_emit (n : nat) (o : Output) :
  Indent_loop n o = Returned (emit (tabs n) o).
Proof.
  revert o. induction n as [|n IH]; intros o; simpl.
  - unfold ret. now rewrite emit_nil.
  - rewrite (seq_returned _ _ _ _ (shl_lit_emit TAB o)).
    rewrite IH, emit_emit. reflexivity.
Qed.

Lemma Indent_emit (o : Output) :
  Indent o = Returned (emit (tabs (Z.to_nat (mLevel o))) o).
Proof. apply Indent_loop_emit. Qed.

(** ** The element functions in closed form *)

Ltac run_step :=
  rewrite seq_apply;
  first [ rewrite shl_lit_emit | rewrite shl_cstr_emit | rewrite shl_string_emit
        | rewrite writeString_emit | rewrite Indent_emit ];
  cbv beta iota.

Lemma seq_inv (m1 m2 : Method) (o o' : Output) :
  (m1 ;; m2) o = Returned o' ->
  exists o1, m1 o = Returned o1 /\ m2 o1 = Returned o'.
Proof.
  rewrite seq_apply. destruct (m1 o) as [o1|o1|]; try discriminate.
  intros H. exists o1. auto.
Qed.

Lemma assert_inv (e : bool) (o o' : Output) :
  assert e o = Returned o' -> e = true /\ o' = o.
Proof.
  unfold assert. destruct e; intros H; inversion H; auto.
Qed.

Lemma assert_this_inv (e : Output -> bool) (o o' : Output) :
  assert_this e o = Returned o' -> e o = true /\ o' = o.
Proof.
  unfold assert_this. destruct (e o); intros H; inversion H; auto.
Qed.

Lemma nonnull_inv (p : cstr) : nonnull p = true -> exists s, p = Some s.
Proof. destruct p as [s|]; [eauto | discriminate]. Qed.

Lemma BeginElement_closed_form (name : string) (mode : Mode) (o : Output) :
  mAttributes o = false ->
  BeginElement (Some name) mode o =
  if mLevel o <? INT_MAX then Returned (opened name mode o) else Undefined.
Proof.
  intros Hattr. unfold BeginElement.
  rewrite seq_apply. unfold assert at 1. cbn [nonnull].
  rewrite seq_apply. unfold assert_this at 1. rewrite Hattr. cbn [negb].
  run_step.
  rewrite seq_apply. unfold incr_mLevel at 1. cbn [emit mLevel].
  destruct (mLevel o <? INT_MAX); [|reflexivity].
  do 3 run_step.
  destruct mode; cbn [is_terse].
  - run_step. rewrite !emit_emit. unfold push_back, emit, opened. cbn.
    rewrite Hattr. repeat rewrite append_assoc. reflexivity.
  - rewrite seq_apply. unfold ret. rewrite !emit_emit.
    unfold push_back, emit, opened. cbn.
    rewrite Hattr. repeat rewrite append_assoc. reflexivity.
Qed.

Lemma BeginElement_returns (name : string) (mode : Mode) (o : Output) :
  mAttributes o = false ->
  mLevel o < INT_MAX ->
  BeginElement (Some name) mode o = Returned (opened name mode o).
Proof.
  intros Hattr Hmax. apply Z.ltb_lt in Hmax.
  rewrite BeginElement_closed_form, Hmax by assumption. reflexivity.
Qed.

Lemma BeginElement_inv (name : cstr) (mode : Mode) (o o' : Output) :
  BeginElement name mode o = Returned o' ->
  exists n, name = Some n /\ mAttributes o = false /\ mLevel o < INT_MAX /\
            o' = opened n mode o.
Proof.
  intros H.
  assert (Hpre : exists n, name = Some n /\ mAttributes o = false).
  { unfold BeginElement in H.
    apply seq_inv in H. destruct H as (o1 & H1 & H).
    apply assert_inv in H1. destruct H1 as [Hn ->].
    apply seq_inv in H. destruct H as (o2 & H2 & _).
    apply assert_this_inv in H2. destruct H2 as [Ha _].
    apply nonnull_inv in Hn. destruct Hn as [n ->].
    exists n. split; [reflexivity|]. now apply negb_true_iff in Ha. }
  destruct Hpre as (n & -> & Hattr). exists n.
  rewrite BeginElement_closed_form in H by assumption.
  destruct (mLevel o <? INT_MAX) eqn:Hmax; [|discriminate].
  apply Z.ltb_lt in Hmax. inversion H. auto.
Qed.

Lemma BeginElementAttrs_closed_form (name : string) (o : Output) :
  mAttributes o = false ->
  BeginElementAttrs (Some name) o =
  if mLevel o <? INT_MAX then Returned (opened_attrs name o) else Undefined.
Proof.
  intros Hattr. unfold BeginElementAttrs.
  rewrite seq_apply. unfold assert at 1. cbn [nonnull].
  rewrite seq_apply. unfold assert_this at 1. rewrite Hattr. cbn [negb].
  run_step.
  rewrite seq_apply. unfold incr_mLevel at 1. cbn [emit mLevel].
  destruct (mLevel o <? INT_MAX); [|reflexivity].
  do 2 run_step.
  rewrite !emit_emit. unfold set_mAttributes, push_back, emit, seq, opened_attrs. cbn.
  repeat rewrite append_assoc. reflexivity.
Qed.

Lemma BeginElementAttrs_returns (name : string) (o : Output) :
  mAttributes o = false ->
  mLevel o < INT_MAX ->
  BeginElementAttrs (Some name) o = Returned (opened_attrs name o).
Proof.
  intros Hattr Hmax. apply Z.ltb_lt in Hmax.
  rewrite BeginElementAttrs_closed_form, Hmax by assumption. reflexivity.
Qed.

Lemma BeginElementAttrs_inv (name : cstr) (o o' : Output) :
  BeginElementAttrs name o = Returned o' ->
  exists n, name = Some n /\ mAttributes o = false /\ mLevel o < INT_MAX /\
            o' = opened_attrs n o.
Proof.
  intros H.
  assert (Hpre : exists n, name = Some n /\ mAttributes o = false).
  { unfold BeginElementAttrs in H.
    apply seq_inv in H. destruct H as (o1 & H1 & H).
    apply assert_inv in H1. destruct H1 as [Hn ->].
    apply seq_inv in H. destruct H as (o2 & H2 & _).
    apply assert_this_inv in H2. destruct H2 as [Ha _].
    apply nonnull_inv in Hn. destruct Hn as [n ->].
    exists n. split; [reflexivity|]. now apply negb_true_iff in Ha. }
  destruct Hpre as (n & -> & Hattr). exists n.
  rewrite BeginElementAttrs_closed_form in H by assumption.
  destruct (mLevel o <? INT_MAX) eqn:Hmax; [|discriminate].
  apply Z.ltb_lt in Hmax. inversion H. auto.
Qed.

Lemma EndAttrs_returns (mode : Mode) (o : Output) :
  mAttributes o = true ->
  EndAttrs mode o = Returned (attrs_closed mode o).
Proof.
  intros Hattr. unfold EndAttrs.
  rewrite seq_apply. unfold assert_this at 1. rewrite Hattr.
  rewrite seq_apply. unfold set_mAttributes at 1. cbv beta iota.
  run_step.
  destruct mode; cbn [is_terse].
  - rewrite shl_lit_emit, emit_emit. unfold emit, attrs_closed. cbn. reflexivity.
  - unfold ret, emit, attrs_closed. cbn. reflexivity.
Qed.

Lemma EndAttrs_inv (mode : Mode) (o o' : Output) :
  EndAttrs mode o = Returned o' ->
  mAttributes o = true /\ o' = attrs_closed mode o.
Proof.
  intros H.
  assert (Hattr : mAttributes o = true).
  { unfold EndAttrs in H. apply seq_inv in H. destruct H as (o1 & H1 & _).
    now apply assert_this_inv in H1. }
  rewrite EndAttrs_returns in H by assumption. inversion H. auto.
Qed.

Lemma back_last (l : list cstr) (x : cstr) : back (l ++ [x])%list = Some x.
Proof.
  induction l as [|y l IH]; [reflexivity|].
  cbn [app back]. destruct (l ++ [x])%list eqn:E; [|exact IH].
  destruct l; discriminate.
Qed.

(** [EndElement] up to the point where the popped pointer is written. *)
Lemma EndElement_closed_form (x : cstr) (rest : list cstr) (mode : Mode) (o : Output) :
  mElements o = (rest ++ [x])%list ->
  mAttributes o = false ->
  0 < mLevel o ->
  EndElement mode o =
  (shl_cstr x ;; shl_lit ">" ;; shl_lit LF)
    {| mStream := mStream o
                  ++ (if is_terse mode then EmptyString
                      else tabs (Z.to_nat (mLevel o - 1)))
                  ++ "</";
       mLevel := mLevel o - 1;
       mAttributes := false;
       mElements := rest |}.
Proof.
  intros Hel Hattr Hpos.
  assert (Hmin : (INT_MIN <? mLevel o) = true)
    by (apply Z.ltb_lt; unfold INT_MIN; lia).
  apply Z.ltb_lt in Hpos.
  unfold EndElement.
  rewrite seq_apply. unfold assert_this at 1. rewrite Hel, last_length. cbn [Nat.ltb Nat.leb].
  rewrite seq_apply. unfold assert_this at 1. rewrite Hattr. cbn [negb].
  rewrite seq_apply. unfold assert_this at 1. rewrite Hpos.
  rewrite seq_apply. unfold decr_mLevel at 1. rewrite Hmin.
  assert (Hfin : forall pre,
    match back (rest ++ [x])%list with
    | None => Undefined
    | Some name0 =>
        (pop_back ;; shl_lit "</" ;; shl_cstr name0 ;; shl_lit ">" ;; shl_lit LF)
          {| mStream := mStream o ++ pre; mLevel := mLevel o - 1;
             mAttributes := mAttributes o; mElements := (rest ++ [x])%list |}
    end =
    (shl_cstr x ;; shl_lit ">" ;; shl_lit LF)
      {| mStream := mStream o ++ pre ++ "</";
         mLevel := mLevel o - 1; mAttributes := false; mElements := rest |}).
  { intros pre. rewrite back_last.
    rewrite seq_apply. unfold pop_back at 1. cbn [mElements].
    destruct (rest ++ [x])%list eqn:E; [destruct rest; discriminate|].
    rewrite <- E, removelast_last. cbv beta iota.
    run_step. unfold emit. cbn [mStream mLevel mAttributes mElements].
    rewrite Hattr, append_assoc. reflexivity. }
  destruct mode; cbn [is_terse].
  - run_step. cbn [emit mLevel mStream mAttributes mElements].
    rewrite Hel. apply Hfin.
  - rewrite seq_apply. unfold ret. cbv beta iota. cbn [mElements].
    specialize (Hfin EmptyString). rewrite append_nil_r in Hfin.
    rewrite Hel. exact Hfin.
Qed.

Lemma EndElement_returns (name : string) (rest : list cstr) (mode : Mode) (o : Output) :
  mElements o = (rest ++ [Some name])%list ->
  mAttributes o = false ->
  0 < mLevel o ->
  EndElement mode o = Returned (closed name rest mode o).
Proof.
  intros Hel Hattr Hpos.
  rewrite (EndElement_closed_form _ _ _ _ Hel Hattr Hpos).
  do 2 run_step. rewrite shl_lit_emit, !emit_emit.
  unfold emit, closed. cbn [mStream mLevel mAttributes mElements].
  repeat rewrite append_assoc. reflexivity.
Qed.

Lemma EndElement_inv (mode : Mode) (o o' : Output) :
  EndElement mode o = Returned o' ->
  exists name rest,
    mElements o = (rest ++ [Some name])%list /\ mAttributes o = false /\
    0 < mLevel o /\ o' = closed name rest mode o.
Proof.
  intros H.
  assert (Hpre : mElements o <> [] /\ mAttributes o = false /\ 0 < mLevel o).
  { unfold EndElement in H.
    apply seq_inv in H. destruct H as (o1 & H1 & H).
    apply assert_this_inv in H1. destruct H1 as [Hn ->].
    apply seq_inv in H. destruct H as (o2 & H2 & H).
    apply assert_this_inv in H2. destruct H2 as [Ha ->].
    apply seq_inv in H. destruct H as (o3 & H3 & _).
    apply assert_this_inv in H3. destruct H3 as [Hl _].
    repeat split.
    - intros E. rewrite E in Hn. discriminate.
    - now apply negb_true_iff in Ha.
    - now apply Z.ltb_lt in Hl. }
  destruct Hpre as (Hne & Hattr & Hpos).
  destruct (exists_last Hne) as (rest & x & Hel).
  rewrite (EndElement_closed_form _ _ _ _ Hel Hattr Hpos) in H.
  destruct x as [name|].
  - exists name, rest. rewrite <- (EndElement_closed_form _ _ _ _ Hel Hattr Hpos) in H.
    rewrite (EndElement_returns _ _ _ _ Hel Hattr Hpos) in H.
    inversion H. auto.
  - discriminate.
Qed.

(** ** Frame: what the output functions leave alone *)

Section Frame.

Variable A : Type.
Variable view : Output -> A.

(** [view] does not look at the sink. *)
Hypothesis view_emit :
  forall (o : Output) (stream : string),
    view {| mStream := stream; mLevel := mLevel o;
            mAttributes := mAttributes o; mElements := mElements o |} = view o.

Lemma preserves_ret : preserves view ret.
Proof. intros o. reflexivity. Qed.

Lemma preserves_assert (e : bool) : preserves view (assert e).
Proof. intros o. unfold assert. destruct e; reflexivity. Qed.

Lemma preserves_assert_this (e : Output -> bool) : preserves view (assert_this e).
Proof. intros o. unfold assert_this. destruct (e o); reflexivity. Qed.

Lemma preserves_seq (m1 m2 : Method) :
  preserves view m1 -> preserves view m2 -> preserves view (m1 ;; m2).
Proof.
  intros H1 H2 o. rewrite seq_apply.
  specialize (H1 o). destruct (m1 o) as [o1|o1|]; cbn in *; auto.
  specialize (H2 o1). destruct (m2 o1); cbn in *; congruence.
Qed.

Lemma preserves_write (str : string) (len : nat) : preserves view (write str len).
Proof. intros o. apply view_emit. Qed.

Lemma preserves_writeString (str : cstr) : preserves view (writeString str).
Proof.
  destruct str as [s|]; [apply preserves_write | intros o; reflexivity].
Qed.

Lemma preserves_writeLine (str : cstr) : preserves view (writeLine str).
Proof.
  destruct str as [s|]; [|intros o; reflexivity].
  apply preserves_seq; apply preserves_write.
Qed.

Lemma preserves_shl_cstr (str : cstr) : preserves view (shl_cstr str).
Proof.
  apply preserves_seq; [apply preserves_assert | apply preserves_writeString].
Qed.

Lemma preserves_shl_lit (lit : string) : preserves view (shl_lit lit).
Proof. apply preserves_shl_cstr. Qed.

Lemma preserves_shl {double : Type} (sprintf_g : double -> string)
      (v : Value double) : preserves view (shl sprintf_g v).
Proof.
  destruct v; cbn [shl];
    first [apply preserves_write | apply preserves_shl_cstr
          | apply preserves_writeString].
Qed.

Lemma preserves_if (b : bool) (m1 m2 : Method) :
  preserves view m1 -> preserves view m2 -> preserves view (if b then m1 else m2).
Proof. destruct b; auto. Qed.

Lemma preserves_Indent_loop (n : nat) : preserves view (Indent_loop n).
Proof.
  induction n as [|n IH]; cbn [Indent_loop].
  - apply preserves_ret.
  - apply preserves_seq; [apply preserves_shl_lit | exact IH].
Qed.

Lemma preserves_Indent : preserves view Indent.
Proof. intros o. apply preserves_Indent_loop. Qed.

Hint Resolve preserves_ret preserves_assert preserves_assert_this
     preserves_seq preserves_write preserves_writeString preserves_writeLine
     preserves_shl_cstr preserves_shl_lit preserves_if preserves_Indent
  : core.

Lemma preserves_BeginDocument (version encoding : cstr) (standalone : bool) :
  preserves view (BeginDocument version encoding standalone).
Proof. unfold BeginDocument. auto 20. Qed.

Lemma preserves_EndDocument : preserves view EndDocument.
Proof. unfold EndDocument. auto. Qed.

Lemma preserves_WriteAttr {double : Type} (sprintf_g : double -> string)
      (name : cstr) (v : AttrValue double) :
  preserves view (WriteAttr sprintf_g name v).
Proof.
  destruct v; cbn [WriteAttr];
    unfold WriteAttr_string, WriteAttr_cstr, WriteAttr_int,
           WriteAttr_double, WriteAttr_bool,
           shl_string, shl_int, shl_double, shl_bool;
    auto 20.
Qed.

End Frame.

Lemma returned_preserved {A : Type} (view : Output -> A) (m : Method) (o o' : Output) :
  preserves view m -> m o = Returned o' -> view o' = view o.
Proof.
  intros Hm H. specialize (Hm o). rewrite H in Hm. exact Hm.
Qed.

Lemma stack_view_emit (o : Output) (stream : string) :
  stack_view {| mStream := stream; mLevel := mLevel o;
                mAttributes := mAttributes o; mElements := mElements o |}
  = stack_view o.
Proof. reflexivity. Qed.

Lemma nesting_view_emit (o : Output) (stream : string) :
  nesting_view {| mStream := stream; mLevel := mLevel o;
                  mAttributes := mAttributes o; mElements := mElements o |}
  = nesting_view o.
Proof. reflexivity. Qed.

Lemma stack_view_inv (o o' : Output) :
  stack_view o' = stack_view o ->
  mLevel o' = mLevel o /\ mElements o' = mElements o.
Proof. unfold stack_view. intros H. inversion H. auto. Qed.

(** ** Depth and open elements along a run *)

(** An element written in one go: the entry pushed by the open is the one
    popped by the close. *)
Lemma open_text_close_effect (name : cstr) (m : Method) (o o' : Output) :
  preserves stack_view m ->
  (BeginElement name terse ;; m ;; EndElement terse) o = Returned o' ->
  mLevel o' = mLevel o /\ mElements o' = mElements o.
Proof.
  intros Hm H.
  apply seq_inv in H. destruct H as (o1 & H1 & H).
  apply seq_inv in H. destruct H as (o2 & H2 & H3).
  apply BeginElement_inv in H1. destruct H1 as (n & -> & _ & _ & ->).
  apply (returned_preserved _ _ _ _ Hm) in H2.
  apply stack_view_inv in H2. cbn [opened mLevel mElements] in H2.
  destruct H2 as [Hl He].
  apply EndElement_inv in H3. destruct H3 as (n' & rest & Hel & _ & _ & ->).
  cbn [closed mLevel mElements].
  rewrite He in Hel. apply app_inj_tail in Hel. destruct Hel as [<- _].
  split; [lia | reflexivity].
Qed.

Lemma WriteElement_effect {double : Type} (sprintf_g : double -> string)
      (name : cstr) (v : Value double) (o o' : Output) :
  WriteElement sprintf_g name v o = Returned o' ->
  mLevel o' = mLevel o /\ mElements o' = mElements o.
Proof.
  pose proof (preserves_shl _ stack_view stack_view_emit sprintf_g v) as Hshl.
  destruct v; cbn [WriteElement shl] in *; intros H;
    unfold WriteElement_string, WriteElement_cstr, WriteElement_int,
           WriteElement_unsigned, WriteElement_double, WriteElement_bool in H;
    apply seq_inv in H; destruct H as (o1 & H1 & H);
    apply assert_inv in H1; destruct H1 as [_ ->];
    try (apply seq_inv in H; destruct H as (o2 & H2 & H);
         apply assert_inv in H2; destruct H2 as [_ ->]);
    exact (open_text_close_effect _ _ _ _ Hshl H).
Qed.

Lemma exec_effect {double : Type} (sprintf_g : double -> string)
      (c : Call double) (o o' : Output) :
  exec sprintf_g c o = Returned o' -> nesting_effect c o o'.
Proof.
  destruct c; cbn [exec nesting_effect]; intros H.
  - apply stack_view_inv.
    exact (returned_preserved _ _ _ _
             (preserves_writeString _ stack_view stack_view_emit _) H).
  - apply stack_view_inv.
    exact (returned_preserved _ _ _ _
             (preserves_writeLine _ stack_view stack_view_emit _) H).
  - apply stack_view_inv.
    exact (returned_preserved _ _ _ _
             (preserves_shl _ stack_view stack_view_emit _ _) H).
  - apply stack_view_inv.
    exact (returned_preserved _ _ _ _
             (preserves_BeginDocument _ stack_view stack_view_emit _ _ _) H).
  - apply stack_view_inv.
    exact (returned_preserved _ _ _ _
             (preserves_EndDocument _ stack_view) H).
  - apply stack_view_inv.
    exact (returned_preserved _ _ _ _
             (preserves_Indent _ stack_view stack_view_emit) H).
  - apply BeginElement_inv in H. destruct H as (n & -> & _ & _ & ->).
    split; reflexivity.
  - apply BeginElementAttrs_inv in H. destruct H as (n & -> & _ & _ & ->).
    split; reflexivity.
  - apply EndAttrs_inv in H. destruct H as [_ ->]. split; reflexivity.
  - apply EndElement_inv in H. destruct H as (n & rest & Hel & _ & _ & ->).
    split; [reflexivity|]. exists (Some n). exact Hel.
  - exact (WriteElement_effect _ _ _ _ _ H).
  - apply stack_view_inv.
    exact (returned_preserved _ _ _ _
             (preserves_WriteAttr _ stack_view stack_view_emit _ _ _) H).
Qed.

Lemma effect_depth_matches {double : Type} (c : Call double) (o o' : Output) :
  nesting_effect c o o' -> depth_matches o -> depth_matches o'.
Proof.
  unfold depth_matches.
  destruct c; cbn [nesting_effect];
    try (intros [-> ->] H; exact H).
  - intros [-> ->] H. rewrite last_length. lia.
  - intros [-> ->] H. rewrite last_length. lia.
  - intros [-> (name & Hel)] H. rewrite Hel, last_length in H. lia.
Qed.

Lemma run_depth_matches {double : Type} (sprintf_g : double -> string)
      (calls : list (Call double)) (o o' : Output) :
  depth_matches o -> run sprintf_g calls o = Returned o' -> depth_matches o'.
Proof.
  revert o. induction calls as [|c calls IH]; intros o Ho H.
  - inversion H. subst. exact Ho.
  - cbn [run] in H. apply seq_inv in H. destruct H as (o1 & H1 & H).
    apply (IH o1); [|exact H].
    exact (effect_depth_matches c o o1 (exec_effect _ _ _ _ H1) Ho).
Qed.

(** ** Attribute writes *)

Lemma ends_in_impl (P Q : Output -> Prop) (r : Result) :
  (forall o, P o -> Q o) -> ends_in P r -> ends_in Q r.
Proof. destruct r; cbn; auto. Qed.

Lemma nesting_view_inv (o o' : Output) :
  nesting_view o' = nesting_view o -> same_nesting o o'.
Proof.
  unfold nesting_view, same_nesting. intros H. inversion H. auto.
Qed.

Lemma WriteAttr_outside_window {double : Type} (sprintf_g : double -> string)
      (name : cstr) (v : AttrValue double) (o : Output) :
  mAttributes o = false -> WriteAttr sprintf_g name v o = AssertFailed o.
Proof.
  intros Hattr.
  destruct v; cbn [WriteAttr];
    unfold WriteAttr_string, WriteAttr_cstr, WriteAttr_int,
           WriteAttr_double, WriteAttr_bool;
    rewrite seq_apply; unfold assert_this at 1; rewrite Hattr; reflexivity.
Qed.

Lemma WriteAttr_null_name {double : Type} (sprintf_g : double -> string)
      (v : AttrValue double) (o : Output) :
  mAttributes o = true -> WriteAttr sprintf_g None v o = AssertFailed o.
Proof.
  intros Hattr.
  destruct v; cbn [WriteAttr];
    unfold WriteAttr_string, WriteAttr_cstr, WriteAttr_int,
           WriteAttr_double, WriteAttr_bool;
    rewrite seq_apply; unfold assert_this at 1; rewrite Hattr;
    reflexivity.
Qed.

Lemma WriteAttr_null_value {double : Type} (sprintf_g : double -> string)
      (name : cstr) (v : AttrValue double) (o : Output) :
  mAttributes o = true ->
  attr_formatted sprintf_g v = None ->
  WriteAttr sprintf_g name v o = AssertFailed o.
Proof.
  intros Hattr Hv.
  destruct v as [str|[str|]|value|value|value]; try discriminate.
  cbn [WriteAttr]. unfold WriteAttr_cstr.
  rewrite seq_apply. unfold assert_this at 1. rewrite Hattr.
  destruct name; reflexivity.
Qed.

Lemma WriteAttr_returns {double : Type} (sprintf_g : double -> string)
      (name text : string) (v : AttrValue double) (o : Output) :
  mAttributes o = true ->
  attr_formatted sprintf_g v = Some text ->
  WriteAttr sprintf_g (Some name) v o = Returned (emit (attribute name text) o).
Proof.
  intros Hattr Hv.
  destruct v as [str|[str|]|value|value|value]; cbn [attr_formatted] in Hv;
    inversion Hv; subst; cbn [WriteAttr];
    unfold WriteAttr_string, WriteAttr_cstr, WriteAttr_int,
           WriteAttr_double, WriteAttr_bool,
           shl_int, shl_double, shl_bool;
    rewrite seq_apply; unfold assert_this at 1; rewrite Hattr;
    rewrite seq_apply; unfold assert at 1; cbn [nonnull];
    try (rewrite seq_apply; unfold assert at 1; cbn [nonnull]);
    do 4 run_step;
    rewrite shl_lit_emit, !emit_emit; unfold attribute;
    repeat rewrite append_assoc; reflexivity.
Qed.

Lemma preserves_write_attrs {double : Type} (sprintf_g : double -> string)
      (attrs : list (cstr * AttrValue double)) :
  preserves nesting_view (run sprintf_g (write_attrs attrs)).
Proof.
  induction attrs as [|a attrs IH]; cbn [write_attrs map run].
  - apply preserves_ret.
  - apply preserves_seq; [|exact IH].
    apply (preserves_WriteAttr _ nesting_view nesting_view_emit).
Qed.

(** C10.  In a state with the attribute window open, [WriteAttr] (any
    overload, any name and value, null pointers included) leaves [mLevel],
    [mElements] and [mAttributes] as they were, whether it returns or stops
    at an assertion; with a name and a value that are not null it returns;
    and so does any number of attribute writes in a row. *)
Theorem C10_WriteAttr_keeps_nesting :
  forall (double : Type) (sprintf_g : double -> string)
         (name : cstr) (v : AttrValue double) (o : Output),
    mAttributes o = true ->
    ends_in (same_nesting o) (WriteAttr sprintf_g name v o) /\
    (forall (n text : string),
        name = Some n -> attr_formatted sprintf_g v = Some text ->
        exists o', WriteAttr sprintf_g name v o = Returned o' /\ same_nesting o o') /\
    (forall attrs : list (cstr * AttrValue double),
        ends_in (same_nesting o) (run sprintf_g (write_attrs attrs) o)).
Proof.
  intros double sprintf_g name v o Hattr. repeat split.
  - apply (ends_in_impl _ _ _ (nesting_view_inv o)).
    apply (preserves_WriteAttr _ nesting_view nesting_view_emit).
  - intros n text -> Hv. rewrite (WriteAttr_returns _ _ _ _ _ Hattr Hv).
    eexists. split; [reflexivity|]. repeat split.
  - intros attrs. apply (ends_in_impl _ _ _ (nesting_view_inv o)).
    apply preserves_write_attrs.
Qed.

(** C7, as the code has it.  Outside the attribute window every [WriteAttr]
    stops at its first assertion, with nothing written.  Inside the window
    it stops in the same way when the name is null or the value is a null
    [const char *], and returns, having written [ name="text"], in every
    other case. *)
Theorem C7_WriteAttr_violation_cases :
  forall (double : Type) (sprintf_g : double -> string)
         (name : cstr) (v : AttrValue double) (o : Output),
    (mAttributes o = false ->
       WriteAttr sprintf_g name v o = AssertFailed o) /\
    (mAttributes o = true ->
       (name = None \/ attr_formatted sprintf_g v = None ->
          WriteAttr sprintf_g name v o = AssertFailed o) /\
       (forall n text : string,
          name = Some n -> attr_formatted sprintf_g v = Some text ->
          WriteAttr sprintf_g name v o = Returned (emit (attribute n text) o))).
Proof.
  intros double sprintf_g name v o. split; [apply WriteAttr_outside_window|].
  intros Hattr. split.
  - intros [-> | Hv].
    + now apply WriteAttr_null_name.
    + now apply WriteAttr_null_value.
  - intros n text -> Hv. now apply WriteAttr_returns.
Qed.

(** C7 as stated fails on a null name: after [BeginElementAttrs("item")] on
    a fresh [Output] the attribute window is open, and [WriteAttr(NULL, 7)]
    stops at [assert(name)]. *)
Lemma C7_null_name_raises_inside_window :
  BeginElementAttrs (Some "item") Output_new
    = Returned (opened_attrs "item" Output_new) /\
  mAttributes (opened_attrs "item" Output_new) = true /\
  raises (WriteAttr_int None 7 (opened_attrs "item" Output_new)).
Proof.
  split; [reflexivity|]. split; [reflexivity|].
  exists (opened_attrs "item" Output_new). reflexivity.
Qed.

(** ** End of document *)

(** C3.  [EndDocument] stops at an assertion exactly when an element is
    still open or the attribute window is open, and returns exactly when
    neither is; either way the object, sink included, is what it was. *)
Theorem C3_EndDocument_checks_only :
  forall o : Output,
    (raises (EndDocument o) <-> mElements o <> [] \/ mAttributes o = true) /\
    (returns (EndDocument o) <-> mElements o = [] /\ mAttributes o = false) /\
    (forall o', EndDocument o = Returned o' -> o' = o) /\
    (forall o', EndDocument o = AssertFailed o' -> o' = o).
Proof.
  intros o. unfold EndDocument, raises, returns.
  rewrite seq_apply. unfold assert_this.
  destruct (mAttributes o); cbn [negb];
    [|destruct (mElements o) as [|x l]].
  - split; [split | split; [split | split]].
    + intros _. now right.
    + intros _. eauto.
    + intros [o' H]. discriminate.
    + intros [_ H]. discriminate.
    + intros o' H. discriminate.
    + intros o' H. now inversion H.
  - split; [split | split; [split | split]].
    + intros [o' H]. discriminate.
    + intros [H | H]; [now elim H | discriminate].
    + intros _. auto.
    + intros _. eauto.
    + intros o' H. now inversion H.
    + intros o' H. discriminate.
  - split; [split | split; [split | split]].
    + intros _. left. discriminate.
    + intros _. eauto.
    + intros [o' H]. discriminate.
    + intros [H _]. discriminate.
    + intros o' H. discriminate.
    + intros o' H. now inversion H.
Qed.

(** ** [WriteElement] against its description *)

Lemma seq_ext_mid (m1 m m' m3 : Method) :
  (forall o, m o = m' o) ->
  forall o, (m1 ;; m ;; m3) o = (m1 ;; m' ;; m3) o.
Proof.
  intros H o. apply seq_ext. intros o1. rewrite !seq_apply, H. reflexivity.
Qed.

Lemma WriteElement_open_text_close :
  forall (double : Type) (sprintf_g : double -> string)
         (name : cstr) (v : Value double) (text : string) (o : Output),
    formatted sprintf_g v = Some text ->
    WriteElement sprintf_g name v o = writeElement_spec name text o.
Proof.
  intros double sprintf_g name v text o Hv.
  assert (Hshl : forall o1, shl sprintf_g v o1 = emit_text text o1)
    by (intros o1; now apply shl_emit).
  unfold writeElement_spec.
  destruct name as [n|].
  - destruct v as [str|[str|]|value|value|value|value];
      try discriminate; cbn [WriteElement shl] in *;
      unfold WriteElement_string, WriteElement_cstr, WriteElement_int,
             WriteElement_unsigned, WriteElement_double, WriteElement_bool;
      rewrite seq_apply; unfold assert at 1; cbn [nonnull];
      try (rewrite seq_apply; unfold assert at 1; cbn [nonnull]);
      apply seq_ext_mid; exact Hshl.
  - destruct v as [str|[str|]|value|value|value|value];
      try discriminate; reflexivity.
Qed.

(** With a null [const char *] value [WriteElement] stops at its own
    assertion, before the open tag is written; the three steps in a row
    would stop at the assertion of [operator<<], behind the open tag. *)
Lemma WriteElement_null_value (name : string) (o : Output) :
  WriteElement_cstr (Some name) None o = AssertFailed o /\
  (mAttributes o = false -> mLevel o < INT_MAX ->
   (BeginElement (Some name) terse ;; shl_cstr None ;; EndElement terse) o
   = AssertFailed (opened name terse o)).
Proof.
  split; [reflexivity|]. intros Hattr Hmax.
  rewrite (seq_returned _ _ _ _ (BeginElement_returns name terse o Hattr Hmax)).
  reflexivity.
Qed.

(** C5, as the code has it.  For every value that has a formatted value
    in the spec's sense (any string, integer, floating-point or boolean
    value, a null [const char *] excepted) and, for an [unsigned int], is
    at most [INT_MAX], every name and every state, [WriteElement] ends
    exactly as [BeginElement(name, terse)], the formatted value sent to
    the sink, [EndElement(terse)] in a row: same outcome, same sink
    contents, same members.  This covers the states in which
    [BeginElement] may be called. *)
Theorem C5_WriteElement_is_open_text_close :
  forall (double : Type) (sprintf_g : double -> string)
         (name : cstr) (v : Value double) (text : string) (o : Output),
    spec_formatted sprintf_g v = Some text ->
    unsigned_fits_int v ->
    WriteElement sprintf_g name v o = writeElement_spec name text o.
Proof.
  intros double sprintf_g name v text o Hv Hfit.
  apply WriteElement_open_text_close.
  destruct v as [str|str|value|value|value|value];
    cbn [spec_formatted formatted unsigned_fits_int] in *; try exact Hv.
  unfold int_of_unsigned. apply Z.leb_le in Hfit. now rewrite Hfit.
Qed.

(** C5 as stated fails on a null [const char *] value.  On a fresh
    [Output], which is outside the attribute window, and with the name
    [n]: [WriteElement(n, NULL)] stops at its [assert(value)] with nothing
    sent and depth 0; [BeginElement(n, terse)], the value sent with
    [operator<<], [EndElement(terse)] stop at the assertion of
    [operator<<], with [<n>] in the sink and depth 1. *)
Lemma C5_null_value_stops_before_open_tag :
  mAttributes Output_new = false /\
  WriteElement_cstr (Some "n") None Output_new = AssertFailed Output_new /\
  (BeginElement (Some "n") terse ;; shl_cstr None ;; EndElement terse) Output_new
  = AssertFailed (opened "n" terse Output_new) /\
  mStream Output_new = EmptyString /\
  mStream (opened "n" terse Output_new) = "<n>" /\
  mLevel Output_new = 0 /\
  mLevel (opened "n" terse Output_new) = 1 /\
  WriteElement_cstr (Some "n") None Output_new
  <> (BeginElement (Some "n") terse ;; shl_cstr None ;; EndElement terse) Output_new.
Proof.
  repeat split. discriminate.
Qed.

Lemma WriteElement_returns {double : Type} (sprintf_g : double -> string)
      (name text : string) (v : Value double) (o : Output) :
  formatted sprintf_g v = Some text ->
  mAttributes o = false ->
  0 <= mLevel o < INT_MAX ->
  WriteElement sprintf_g (Some name) v o =
  Returned (emit (tabs (Z.to_nat (mLevel o)) ++ "<" ++ name ++ ">" ++ text
                  ++ "</" ++ name ++ ">" ++ LF) o).
Proof.
  intros Hv Hattr [Hlo Hhi].
  rewrite (WriteElement_open_text_close _ _ _ _ _ _ Hv).
  unfold writeElement_spec.
  rewrite (seq_returned _ _ _ _ (BeginElement_returns name terse o Hattr Hhi)).
  rewrite seq_apply. unfold emit_text at 1.
  rewrite (EndElement_returns name (mElements o) terse);
    [ | reflexivity | reflexivity | cbn; lia ].
  unfold closed, emit, opened. cbn [mStream mLevel mAttributes mElements is_terse].
  rewrite Hattr. repeat rewrite append_assoc. cbn [append].
  replace (mLevel o + 1 - 1) with (mLevel o) by lia. reflexivity.
Qed.

(** ** Indentation and line ends *)

(** C6.  An element opened at depth [d], by [BeginElement] in either mode
    or by [BeginElementAttrs], sends [d] tabs and then the tag; [terse]
    only drops the line feed after [<name>].  [EndElement] on an object at
    depth [d + 1] sends, in normal mode, [d] tabs in front of [</name>],
    in [terse] mode none, and in both modes a line feed after it.
    [EndAttrs] sends [>] and, unless [terse], a line feed. *)
Theorem C6_indentation_and_terse :
  (forall (name : string) (mode : Mode) (o : Output) (d : nat),
      mLevel o = Z.of_nat d ->
      mLevel o < INT_MAX ->
      mAttributes o = false ->
      (exists o',
          BeginElement (Some name) mode o = Returned o' /\
          mStream o' = mStream o ++ tabs d ++ "<" ++ name ++ ">"
                       ++ match mode with terse => EmptyString | normal => LF end) /\
      (exists o',
          BeginElementAttrs (Some name) o = Returned o' /\
          mStream o' = mStream o ++ tabs d ++ "<" ++ name)) /\
  (forall (name : string) (rest : list cstr) (mode : Mode) (o : Output) (d : nat),
      mElements o = (rest ++ [Some name])%list ->
      mLevel o = Z.of_nat (S d) ->
      mAttributes o = false ->
      exists o',
        EndElement mode o = Returned o' /\
        mStream o' = mStream o
                     ++ match mode with terse => EmptyString | normal => tabs d end
                     ++ "</" ++ name ++ ">" ++ LF) /\
  (forall (mode : Mode) (o : Output),
      mAttributes o = true ->
      exists o',
        EndAttrs mode o = Returned o' /\
        mStream o' = mStream o ++ ">"
                     ++ match mode with terse => EmptyString | normal => LF end).
Proof.
  split; [|split].
  - intros name mode o d Hd Hmax Hattr. split.
    + rewrite (BeginElement_returns name mode o Hattr Hmax).
      eexists. split; [reflexivity|].
      cbn [opened mStream]. rewrite Hd, Nat2Z.id. now destruct mode.
    + rewrite (BeginElementAttrs_returns name o Hattr Hmax).
      eexists. split; [reflexivity|].
      cbn [opened_attrs mStream]. now rewrite Hd, Nat2Z.id.
  - intros name rest mode o d Hel Hd Hattr.
    rewrite (EndElement_returns name rest mode o Hel Hattr) by lia.
    eexists. split; [reflexivity|].
    cbn [closed mStream].
    replace (Z.to_nat (mLevel o - 1)) with d by lia. now destruct mode.
  - intros mode o Hattr. rewrite (EndAttrs_returns mode o Hattr).
    eexists. split; [reflexivity|]. cbn [attrs_closed mStream]. now destruct mode.
Qed.

(** ** Value rendering *)

(** C9.  [operator<<] sends [-42] for the [int] -42, [True] and [False] for
    the two [bool] values; so an element written with these values reads
    [<name>-42</name>], [<name>True</name>], [<name>False</name>] and an
    attribute [ name="-42"], [ name="True"], [ name="False"]. *)
Theorem C9_int_and_bool_text :
  forall (name : string) (o : Output),
    shl_int (-42) o = Returned (emit "-42" o) /\
    shl_bool true o = Returned (emit "True" o) /\
    shl_bool false o = Returned (emit "False" o) /\
    (mAttributes o = true ->
       WriteAttr_int (Some name) (-42) o
         = Returned (emit (" " ++ name ++ "=" ++ DQUOTE ++ "-42" ++ DQUOTE) o) /\
       WriteAttr_bool (Some name) true o
         = Returned (emit (" " ++ name ++ "=" ++ DQUOTE ++ "True" ++ DQUOTE) o) /\
       WriteAttr_bool (Some name) false o
         = Returned (emit (" " ++ name ++ "=" ++ DQUOTE ++ "False" ++ DQUOTE) o)) /\
    (mAttributes o = false -> 0 <= mLevel o < INT_MAX ->
       WriteElement_int (Some name) (-42) o
         = Returned (emit (tabs (Z.to_nat (mLevel o)) ++ "<" ++ name ++ ">"
                           ++ "-42" ++ "</" ++ name ++ ">" ++ LF) o) /\
       WriteElement_bool (Some name) true o
         = Returned (emit (tabs (Z.to_nat (mLevel o)) ++ "<" ++ name ++ ">"
                           ++ "True" ++ "</" ++ name ++ ">" ++ LF) o) /\
       WriteElement_bool (Some name) false o
         = Returned (emit (tabs (Z.to_nat (mLevel o)) ++ "<" ++ name ++ ">"
                           ++ "False" ++ "</" ++ name ++ ">" ++ LF) o)).
Proof.
  intros name o.
  split; [apply writeString_emit|].
  split; [apply writeString_emit|].
  split; [apply writeString_emit|].
  split.
  - intros Hattr. repeat split.
    + exact (WriteAttr_returns sprintf_g_unit name "-42"
               (AInt (-42)) o Hattr eq_refl).
    + exact (WriteAttr_returns sprintf_g_unit name "True"
               (ABool true) o Hattr eq_refl).
    + exact (WriteAttr_returns sprintf_g_unit name "False"
               (ABool false) o Hattr eq_refl).
  - intros Hattr Hlev. repeat split.
    + exact (WriteElement_returns sprintf_g_unit name "-42"
               (VInt (-42)) o eq_refl Hattr Hlev).
    + exact (WriteElement_returns sprintf_g_unit name "True"
               (VBool true) o eq_refl Hattr Hlev).
    + exact (WriteElement_returns sprintf_g_unit name "False"
               (VBool false) o eq_refl Hattr Hlev).
Qed.

(** What ["%d"] makes of an [unsigned int]: the value itself up to
    [INT_MAX], a negative number above it. *)
Lemma shl_unsigned_in_int_range (value : Z) (o : Output) :
  0 <= value <= INT_MAX -> shl_unsigned value o = shl_int value o.
Proof.
  intros [_ Hhi]. unfold shl_unsigned, shl_int, int_of_unsigned.
  apply Z.leb_le in Hhi. now rewrite Hhi.
Qed.

Lemma sprintf_d_negative (value : Z) :
  value < 0 -> exists digits, sprintf_d value = String "-"%char digits.
Proof.
  destruct value as [|p|p]; try lia. intros _.
  unfold sprintf_d. cbn [Z.to_int NilZero.string_of_int]. eauto.
Qed.

Lemma shl_unsigned_above_INT_MAX (value : Z) (o : Output) :
  INT_MAX < value <= UINT_MAX ->
  exists digits,
    shl_unsigned value o = Returned (emit (String "-"%char digits) o).
Proof.
  intros [Hlo Hhi]. unfold shl_unsigned, int_of_unsigned.
  apply Z.leb_gt in Hlo. rewrite Hlo.
  destruct (sprintf_d_negative (value - 4294967296)) as [digits Hd];
    [unfold UINT_MAX in Hhi; lia|].
  exists digits. rewrite Hd. apply writeString_emit.
Qed.

(** C8.  The [unsigned int] overload converts with ["%d"]: for the largest
    [unsigned int], 4294967295, an element reads [<n>-1</n>], where the
    unsigned decimal representation is [4294967295]; 2147483648, the first
    value above [INT_MAX], is sent as [-2147483648]. *)
Theorem C8_unsigned_converted_as_int :
  WriteElement_unsigned (Some "n") 4294967295 Output_new
    = Returned (emit ("<n>-1</n>" ++ LF) Output_new) /\
  shl_unsigned 4294967295 Output_new = Returned (emit "-1" Output_new) /\
  shl_unsigned 2147483648 Output_new = Returned (emit "-2147483648" Output_new).
Proof. repeat split. Qed.

(** ** Scenarios *)

(** C2.  On a fresh [Output], [BeginElement("root", normal)],
    [WriteElement("child", 5)], [EndElement(normal)], [EndDocument()] all
    return, and the sink has received the line [<root>], the line
    [<child>5</child>] behind one tab, and the line [</root>]. *)
Theorem C2_scenario_root_child :
  (BeginElement (Some "root") normal ;;
   WriteElement_int (Some "child") 5 ;;
   EndElement normal ;;
   EndDocument) Output_new
  = Returned {| mStream := "<root>" ++ LF ++ TAB ++ "<child>5</child>" ++ LF
                           ++ "</root>" ++ LF;
                mLevel := 0;
                mAttributes := false;
                mElements := [] |}.
Proof. reflexivity. Qed.

(** C4.  On a fresh [Output], [BeginElementAttrs("item")],
    [WriteAttr("id", 7)], [EndAttrs(terse)], [EndElement(terse)] all return,
    and the sink has received [<item id="7"></item>] and a line feed. *)
Theorem C4_scenario_item_with_attribute :
  (BeginElementAttrs (Some "item") ;;
   WriteAttr_int (Some "id") 7 ;;
   EndAttrs terse ;;
   EndElement terse) Output_new
  = Returned {| mStream := "<item id=" ++ DQUOTE ++ "7" ++ DQUOTE ++ "></item>" ++ LF;
                mLevel := 0;
                mAttributes := false;
                mElements := [] |}.
Proof. reflexivity. Qed.

(** ** The assertions are all a call needs *)

Lemma BeginDocument_returns (version encoding : string) (standalone : bool) (o : Output) :
  BeginDocument (Some version) (Some encoding) standalone o
  = Returned (emit (prologue version encoding standalone) o).
Proof.
  unfold BeginDocument.
  rewrite seq_apply. unfold assert at 1. cbn [nonnull].
  rewrite seq_apply. unfold assert at 1. cbn [nonnull].
  do 7 run_step. rewrite shl_lit_emit, !emit_emit. unfold prologue.
  repeat rewrite append_assoc. reflexivity.
Qed.

(** The declaration of a standalone UTF-8 document. *)
Example BeginDocument_utf8 :
  BeginDocument (Some "1.0") (Some "UTF-8") true Output_new
  = Returned (emit ("<?xml version=" ++ DQUOTE ++ "1.0" ++ DQUOTE
                    ++ " encoding=" ++ DQUOTE ++ "UTF-8" ++ DQUOTE
                    ++ " standalone=" ++ DQUOTE ++ "yes" ++ DQUOTE ++ "?>" ++ LF)
                   Output_new).
Proof. apply BeginDocument_returns. Qed.

Lemma value_nonnull_formatted {double : Type} (sprintf_g : double -> string)
      (v : Value double) :
  value_nonnull v = true -> exists text, formatted sprintf_g v = Some text.
Proof.
  destruct v as [str|[str|]|value|value|value|value]; cbn;
    intros H; try discriminate; eauto.
Qed.

Lemma attr_value_nonnull_formatted {double : Type} (sprintf_g : double -> string)
      (v : AttrValue double) :
  attr_value_nonnull v = true -> exists text, attr_formatted sprintf_g v = Some text.
Proof.
  destruct v as [str|[str|]|value|value|value]; cbn;
    intros H; try discriminate; eauto.
Qed.

Lemma names_nonnull_last (o : Output) :
  names_nonnull o -> mElements o <> [] ->
  exists name rest, mElements o = (rest ++ [Some name])%list.
Proof.
  unfold names_nonnull. intros Hall Hne.
  destruct (exists_last Hne) as (rest & x & Hel).
  rewrite Hel in Hall. apply Forall_app in Hall. destruct Hall as [_ Hx].
  inversion Hx as [|? ? Hn _]; subst.
  apply nonnull_inv in Hn. destruct Hn as [name ->]. eauto.
Qed.

(** A call whose assertions hold returns, on an object whose depth matches
    its stack of names and is below [INT_MAX]. *)
Lemma exec_returns {double : Type} (sprintf_g : double -> string)
      (c : Call double) (o : Output) :
  pre c o = true ->
  depth_matches o -> names_nonnull o -> mLevel o < INT_MAX ->
  returns (exec sprintf_g c o).
Proof.
  intros Hpre Hdepth Hnames Hmax. unfold returns.
  destruct c; cbn [pre exec] in *.
  - apply nonnull_inv in Hpre. destruct Hpre as [s ->].
    rewrite writeString_emit. eauto.
  - apply nonnull_inv in Hpre. destruct Hpre as [s ->].
    cbn [writeLine]. rewrite seq_apply, write_whole. cbv beta iota.
    unfold write. eauto.
  - destruct (value_nonnull_formatted sprintf_g v Hpre) as [text Hv].
    rewrite (shl_emit _ _ _ _ Hv). eauto.
  - apply andb_true_iff in Hpre. destruct Hpre as [Hv He].
    apply nonnull_inv in Hv. destruct Hv as [v ->].
    apply nonnull_inv in He. destruct He as [e ->].
    rewrite BeginDocument_returns. eauto.
  - apply andb_true_iff in Hpre. destruct Hpre as [Ha He].
    unfold EndDocument. rewrite seq_apply. unfold assert_this.
    rewrite Ha, He. eauto.
  - rewrite Indent_emit. eauto.
  - apply andb_true_iff in Hpre. destruct Hpre as [Hn Ha].
    apply nonnull_inv in Hn. destruct Hn as [n ->].
    apply negb_true_iff in Ha.
    rewrite (BeginElement_returns n mode o Ha Hmax). eauto.
  - apply andb_true_iff in Hpre. destruct Hpre as [Hn Ha].
    apply nonnull_inv in Hn. destruct Hn as [n ->].
    apply negb_true_iff in Ha.
    rewrite (BeginElementAttrs_returns n o Ha Hmax). eauto.
  - rewrite (EndAttrs_returns mode o Hpre). eauto.
  - apply andb_true_iff in Hpre. destruct Hpre as [Hpre Hl].
    apply andb_true_iff in Hpre. destruct Hpre as [Hs Ha].
    apply negb_true_iff in Ha. apply Z.ltb_lt in Hl.
    assert (Hne : mElements o <> [])
      by (intros E; rewrite E in Hs; discriminate).
    destruct (names_nonnull_last o Hnames Hne) as (n & rest & Hel).
    rewrite (EndElement_returns n rest mode o Hel Ha Hl). eauto.
  - apply andb_true_iff in Hpre. destruct Hpre as [Hpre Ha].
    apply andb_true_iff in Hpre. destruct Hpre as [Hn Hv].
    apply nonnull_inv in Hn. destruct Hn as [n ->].
    apply negb_true_iff in Ha.
    destruct (value_nonnull_formatted sprintf_g v Hv) as [text Ht].
    rewrite (WriteElement_returns sprintf_g n text v o Ht Ha); eauto.
    unfold depth_matches in Hdepth. lia.
  - apply andb_true_iff in Hpre. destruct Hpre as [Hpre Hv].
    apply andb_true_iff in Hpre. destruct Hpre as [Ha Hn].
    apply nonnull_inv in Hn. destruct Hn as [n ->].
    destruct (attr_value_nonnull_formatted sprintf_g v Hv) as [text Ht].
    rewrite (WriteAttr_returns sprintf_g n text v o Ha Ht). eauto.
Qed.

(** Conversely a call that returns met its assertions. *)
Lemma returned_pre {double : Type} (sprintf_g : double -> string)
      (c : Call double) (o o' : Output) :
  exec sprintf_g c o = Returned o' -> pre c o = true.
Proof.
  destruct c; cbn [pre exec]; intros H.
  - destruct str; [reflexivity | discriminate].
  - destruct str; [reflexivity | discriminate].
  - destruct v as [str|[str|]|value|value|value|value];
      try reflexivity; discriminate.
  - unfold BeginDocument in H.
    apply seq_inv in H. destruct H as (o1 & H1 & H).
    apply assert_inv in H1. destruct H1 as [-> ->].
    apply seq_inv in H. destruct H as (o2 & H2 & _).
    apply assert_inv in H2. destruct H2 as [-> _]. reflexivity.
  - unfold EndDocument in H.
    apply seq_inv in H. destruct H as (o1 & H1 & H).
    apply assert_this_inv in H1. destruct H1 as [Ha ->].
    apply assert_this_inv in H. destruct H as [He _].
    now rewrite Ha, He.
  - reflexivity.
  - apply BeginElement_inv in H. destruct H as (n & -> & -> & _). reflexivity.
  - apply BeginElementAttrs_inv in H. destruct H as (n & -> & -> & _). reflexivity.
  - now apply EndAttrs_inv in H.
  - apply EndElement_inv in H. destruct H as (n & rest & Hel & -> & Hl & _).
    rewrite Hel, last_length. apply Z.ltb_lt in Hl. now rewrite Hl.
  - assert (Hv : value_nonnull v = true).
    { destruct v as [str|[str|]|value|value|value|value]; try reflexivity.
      cbn [WriteElement] in H. unfold WriteElement_cstr in H.
      apply seq_inv in H. destruct H as (o1 & _ & H).
      apply seq_inv in H. destruct H as (o2 & H2 & _).
      now apply assert_inv in H2. }
    rewrite Hv.
    assert (Hb : exists m o1, (BeginElement name terse ;; m) o1 = Returned o' /\ o1 = o).
    { destruct v; cbn [WriteElement] in H;
        unfold WriteElement_string, WriteElement_cstr, WriteElement_int,
               WriteElement_unsigned, WriteElement_double, WriteElement_bool in H;
        apply seq_inv in H; destruct H as (o1 & H1 & H);
        apply assert_inv in H1; destruct H1 as [_ ->];
        try (apply seq_inv in H; destruct H as (o2 & H2 & H);
             apply assert_inv in H2; destruct H2 as [_ ->]);
        eauto. }
    destruct Hb as (m & o1 & Hb & ->).
    apply seq_inv in Hb. destruct Hb as (o2 & Hb & _).
    apply BeginElement_inv in Hb. destruct Hb as (n & -> & -> & _). reflexivity.
  - destruct (mAttributes o) eqn:Ha;
      [|rewrite (WriteAttr_outside_window _ _ _ _ Ha) in H; discriminate].
    destruct name as [n|];
      [|rewrite (WriteAttr_null_name _ _ _ Ha) in H; discriminate].
    destruct v as [str|[str|]|value|value|value]; try reflexivity.
    rewrite (WriteAttr_null_value sprintf_g (Some n) (ACStr None) o Ha eq_refl) in H.
    discriminate.
Qed.

Lemma exec_names_nonnull {double : Type} (sprintf_g : double -> string)
      (c : Call double) (o o' : Output) :
  exec sprintf_g c o = Returned o' -> names_nonnull o -> names_nonnull o'.
Proof.
  intros H Hnames.
  pose proof (exec_effect _ _ _ _ H) as He.
  pose proof (returned_pre _ _ _ _ H) as Hpre.
  unfold names_nonnull in *.
  destruct c; cbn [nesting_effect pre] in *;
    try (destruct He as [_ ->]; exact Hnames).
  - destruct He as [_ ->]. apply andb_true_iff in Hpre. destruct Hpre as [Hn _].
    apply Forall_app. split; [exact Hnames | now constructor].
  - destruct He as [_ ->]. apply andb_true_iff in Hpre. destruct Hpre as [Hn _].
    apply Forall_app. split; [exact Hnames | now constructor].
  - destruct He as [_ (name & Hel)]. rewrite Hel in Hnames.
    now apply Forall_app in Hnames.
Qed.

Lemma run_names_nonnull {double : Type} (sprintf_g : double -> string)
      (calls : list (Call double)) (o o' : Output) :
  names_nonnull o -> run sprintf_g calls o = Returned o' -> names_nonnull o'.
Proof.
  revert o. induction calls as [|c calls IH]; intros o Ho H.
  - inversion H. subst. exact Ho.
  - cbn [run] in H. apply seq_inv in H. destruct H as (o1 & H1 & H).
    apply (IH o1); [|exact H].
    exact (exec_names_nonnull _ _ _ _ H1 Ho).
Qed.

(** C1.  Take any sequence of calls made on a fresh [Output] in which each
    call returned, that is, met its assertions.  Then [mElements] has
    [mLevel] entries after the sequence (hence after each of its prefixes,
    which are such sequences too).  A further call returns if and only if
    its assertions hold, as long as the depth is below [INT_MAX]; and when
    it returns it changed depth and open elements as follows and left them
    matching: [BeginElement] and [BeginElementAttrs] add one to [mLevel]
    and push their name, [EndElement] takes one from [mLevel] and pops one
    entry, every other call leaves both as they were. *)
Theorem C1_openElements_length_is_depth :
  forall (double : Type) (sprintf_g : double -> string)
         (calls : list (Call double)) (o : Output),
    run sprintf_g calls Output_new = Returned o ->
    depth_matches o /\
    (forall c : Call double,
        mLevel o < INT_MAX ->
        (pre c o = true <-> returns (exec sprintf_g c o))) /\
    (forall (c : Call double) (o' : Output),
        exec sprintf_g c o = Returned o' ->
        nesting_effect c o o' /\ depth_matches o').
Proof.
  intros double sprintf_g calls o Hrun.
  assert (Ho : depth_matches o)
    by (apply (run_depth_matches sprintf_g calls Output_new o);
        [reflexivity | exact Hrun]).
  assert (Hn : names_nonnull o)
    by (apply (run_names_nonnull sprintf_g calls Output_new o);
        [constructor | exact Hrun]).
  split; [exact Ho|]. split.
  - intros c Hmax. split.
    + intros Hpre. now apply exec_returns.
    + intros [o' H]. exact (returned_pre _ _ _ _ H).
  - intros c o' Hc.
    pose proof (exec_effect _ _ _ _ Hc) as He.
    split; [exact He | exact (effect_depth_matches c o o' He Ho)].
Qed.

(** ** Instances *)

(** The run [BeginElement("root")], [WriteElement("child", 5)] on a fresh
    [Output]: it returns, at depth 1 with one open element. *)
Lemma C1_witness :
  run sprintf_g_unit
      [CBeginElement (Some "root") normal; CWriteElement (Some "child") (VInt 5)]
      Output_new
  = Returned (emit (TAB ++ "<child>5</child>" ++ LF) (opened "root" normal Output_new)) /\
  depth_matches
    (emit (TAB ++ "<child>5</child>" ++ LF) (opened "root" normal Output_new)).
Proof.
  split; [reflexivity|].
  apply (C1_openElements_length_is_depth unit sprintf_g_unit
           [CBeginElement (Some "root") normal;
            CWriteElement (Some "child") (VInt 5)]).
  reflexivity.
Defined.

(** A fresh [Output] has nothing open, so [EndDocument] returns on it. *)
Lemma C3_witness :
  mElements Output_new = [] /\ mAttributes Output_new = false /\
  returns (EndDocument Output_new).
Proof.
  split; [reflexivity|]. split; [reflexivity|].
  apply (proj2 (proj1 (proj2 (C3_EndDocument_checks_only Output_new)))).
  split; reflexivity.
Defined.

(** [WriteElement("child", 5)] inside an open [root] element. *)
Lemma C5_witness :
  spec_formatted sprintf_g_unit (VUnsigned 5) = Some "5" /\
  unsigned_fits_int (VUnsigned (double := unit) 5) /\
  WriteElement sprintf_g_unit (Some "child") (VUnsigned 5)
               (opened "root" normal Output_new)
  = writeElement_spec (Some "child") "5" (opened "root" normal Output_new).
Proof.
  split; [reflexivity|]. split; [discriminate|].
  apply (C5_WriteElement_is_open_text_close unit sprintf_g_unit
           (Some "child") (VUnsigned 5) "5" (opened "root" normal Output_new)).
  - reflexivity.
  - discriminate.
Defined.

(** A terse [child] opened at depth 1, a [child] closed in normal mode at
    depth 2, and the attribute list of [item] closed in terse mode. *)
Lemma C6_witness :
  (exists o',
      BeginElement (Some "child") terse (opened "root" normal Output_new)
        = Returned o' /\
      mStream o' = mStream (opened "root" normal Output_new)
                   ++ tabs 1 ++ "<" ++ "child" ++ ">" ++ EmptyString) /\
  (exists o',
      EndElement normal (opened "child" normal (opened "root" normal Output_new))
        = Returned o' /\
      mStream o' = mStream (opened "child" normal (opened "root" normal Output_new))
                   ++ tabs 1 ++ "</" ++ "child" ++ ">" ++ LF) /\
  (exists o',
      EndAttrs terse (opened_attrs "item" Output_new) = Returned o' /\
      mStream o' = mStream (opened_attrs "item" Output_new) ++ ">" ++ EmptyString).
Proof.
  split; [|split].
  - apply (proj1 (proj1 C6_indentation_and_terse "child" terse
                    (opened "root" normal Output_new) 1%nat
                    eq_refl eq_refl eq_refl)).
  - apply (proj1 (proj2 C6_indentation_and_terse) "child" [Some "root"] normal
             (opened "child" normal (opened "root" normal Output_new)) 1%nat
             eq_refl eq_refl eq_refl).
  - apply (proj2 (proj2 C6_indentation_and_terse) terse
             (opened_attrs "item" Output_new) eq_refl).
Defined.

(** [WriteAttr("id", 7)] on a fresh [Output] and after
    [BeginElementAttrs("item")], and [WriteAttr(NULL, 7)] after it. *)
Lemma C7_witness :
  mAttributes Output_new = false /\
  WriteAttr sprintf_g_unit (Some "id") (AInt 7) Output_new
    = AssertFailed Output_new /\
  mAttributes (opened_attrs "item" Output_new) = true /\
  WriteAttr sprintf_g_unit (Some "id") (AInt 7) (opened_attrs "item" Output_new)
    = Returned (emit (attribute "id" "7") (opened_attrs "item" Output_new)) /\
  WriteAttr sprintf_g_unit None (AInt 7) (opened_attrs "item" Output_new)
    = AssertFailed (opened_attrs "item" Output_new).
Proof.
  split; [reflexivity|]. split.
  { apply (proj1 (C7_WriteAttr_violation_cases unit sprintf_g_unit
                    (Some "id") (AInt 7) Output_new)).
    reflexivity. }
  split; [reflexivity|]. split.
  - apply (proj2 (proj2 (C7_WriteAttr_violation_cases unit sprintf_g_unit
                           (Some "id") (AInt 7) (opened_attrs "item" Output_new))
                        eq_refl)
             "id" "7" eq_refl eq_refl).
  - apply (proj1 (proj2 (C7_WriteAttr_violation_cases unit sprintf_g_unit
                           None (AInt 7) (opened_attrs "item" Output_new))
                        eq_refl)).
    left. reflexivity.
Defined.

(** The attribute [n="-42"] inside the attribute window of [item], and the
    element [<n>True</n>] on a fresh [Output]. *)
Lemma C9_witness :
  mAttributes (opened_attrs "item" Output_new) = true /\
  WriteAttr_int (Some "n") (-42) (opened_attrs "item" Output_new)
    = Returned (emit (" " ++ "n" ++ "=" ++ DQUOTE ++ "-42" ++ DQUOTE)
                     (opened_attrs "item" Output_new)) /\
  mAttributes Output_new = false /\
  WriteElement_bool (Some "n") true Output_new
    = Returned (emit ("<n>True</n>" ++ LF) Output_new).
Proof.
  split; [reflexivity|]. split.
  { apply (proj1 (proj2 (proj2 (proj2 (C9_int_and_bool_text "n"
             (opened_attrs "item" Output_new)))))).
    reflexivity. }
  split; [reflexivity|].
  apply (proj2 (proj2 (proj2 (proj2 (C9_int_and_bool_text "n" Output_new))))
           eq_refl (conj (Z.le_refl 0) eq_refl)).
Defined.

(** [WriteAttr("id", 7)] after [BeginElementAttrs("item")]. *)
Lemma C10_witness :
  mAttributes (opened_attrs "item" Output_new) = true /\
  exists o',
    WriteAttr sprintf_g_unit (Some "id") (AInt 7) (opened_attrs "item" Output_new)
      = Returned o' /\
    same_nesting (opened_attrs "item" Output_new) o'.
Proof.
  split; [reflexivity|].
  apply (proj1 (proj2 (C10_WriteAttr_keeps_nesting unit sprintf_g_unit
                         (Some "id") (AInt 7) (opened_attrs "item" Output_new)
                         eq_refl))
           "id" "7" eq_refl eq_refl).
Defined.

(** ** The word-at-a-time [strlen] *)

Lemma char_at_range (mem : Z -> ascii) (p : Z) : 0 <= Memory.char_at mem p < 256.
Proof.
  unfold Memory.char_at. pose proof (N_ascii_bounded (mem p)). lia.
Qed.

Ltac bit_fires k :=
  let E := fresh "E" in
  let B := fresh "B" in
  intro E;
  match type of E with
  | ?t = 0 => assert (B : Z.testbit t k = true)
  end;
  [ rewrite !Z.land_spec; repeat (apply andb_true_intro; split);
    [ apply Z.testbit_true; [lia|]; Z.div_mod_to_equations; lia
    | apply Z.testbit_true; [lia|]; unfold Z.lnot, Z.pred; Z.div_mod_to_equations; lia
    | reflexivity ]
  | rewrite E, Z.testbit_0_l in B; discriminate ].

Lemma zero_byte_fires_8 (x c0 c1 c2 c3 c4 c5 c6 c7 : Z) :
  0 <= c0 < 256 -> 0 <= c1 < 256 -> 0 <= c2 < 256 -> 0 <= c3 < 256 ->
  0 <= c4 < 256 -> 0 <= c5 < 256 -> 0 <= c6 < 256 -> 0 <= c7 < 256 ->
  x = c0 + 256 * c1 + 65536 * c2 + 16777216 * c3 + 4294967296 * c4
      + 1099511627776 * c5 + 281474976710656 * c6 + 72057594037927936 * c7 ->
  c0 = 0 \/ c1 = 0 \/ c2 = 0 \/ c3 = 0 \/ c4 = 0 \/ c5 = 0 \/ c6 = 0 \/ c7 = 0 ->
  Z.land (Z.land ((x - 72340172838076673) mod 18446744073709551616)
                 (Z.lnot x mod 18446744073709551616))
         9259542123273814144 <> 0.
Proof.
  intros H0 H1 H2 H3 H4 H5 H6 H7 Hx Hz.
  destruct (Z.eq_dec c0 0) as [Z0|N0]; [bit_fires 7|].
  destruct (Z.eq_dec c1 0) as [Z1|N1]; [bit_fires 15|].
  destruct (Z.eq_dec c2 0) as [Z2|N2]; [bit_fires 23|].
  destruct (Z.eq_dec c3 0) as [Z3|N3]; [bit_fires 31|].
  destruct (Z.eq_dec c4 0) as [Z4|N4]; [bit_fires 39|].
  destruct (Z.eq_dec c5 0) as [Z5|N5]; [bit_fires 47|].
  destruct (Z.eq_dec c6 0) as [Z6|N6]; [bit_fires 55|].
  destruct (Z.eq_dec c7 0) as [Z7|N7]; [bit_fires 63|].
  lia.
Qed.

Lemma zero_byte_fires_4 (x c0 c1 c2 c3 : Z) :
  0 <= c0 < 256 -> 0 <= c1 < 256 -> 0 <= c2 < 256 -> 0 <= c3 < 256 ->
  x = c0 + 256 * c1 + 65536 * c2 + 16777216 * c3 ->
  c0 = 0 \/ c1 = 0 \/ c2 = 0 \/ c3 = 0 ->
  Z.land (Z.land ((x - 16843009) mod 4294967296) (Z.lnot x mod 4294967296))
         2155905152 <> 0.
Proof.
  intros H0 H1 H2 H3 Hx Hz.
  destruct (Z.eq_dec c0 0) as [Z0|N0]; [bit_fires 7|].
  destruct (Z.eq_dec c1 0) as [Z1|N1]; [bit_fires 15|].
  destruct (Z.eq_dec c2 0) as [Z2|N2]; [bit_fires 23|].
  destruct (Z.eq_dec c3 0) as [Z3|N3]; [bit_fires 31|].
  lia.
Qed.


Lemma land_himagic_8 (a : Z) :
  Z.testbit a 7 = false -> Z.testbit a 15 = false ->
  Z.testbit a 23 = false -> Z.testbit a 31 = false ->
  Z.testbit a 39 = false -> Z.testbit a 47 = false ->
  Z.testbit a 55 = false -> Z.testbit a 63 = false ->
  Z.land a 9259542123273814144 = 0.
Proof.
  intros B0 B1 B2 B3 B4 B5 B6 B7.
  apply Z.bits_inj'. intros n Hn.
  rewrite Z.land_spec, Z.testbit_0_l.
  destruct (Z_lt_dec n 64) as [Hlt | Hge].
  - destruct n as [|n|n]; [ | | lia ].
    + apply andb_false_intro2. reflexivity.
    + do 6 (try destruct n as [n|n|]);
        first [ lia
              | apply andb_false_intro2; reflexivity
              | apply andb_false_intro1; assumption ].
  - apply andb_false_intro2. apply Z.bits_above_log2; [lia|].
    change (Z.log2 9259542123273814144) with 63. lia.
Qed.

Lemma land_himagic_4 (a : Z) :
  Z.testbit a 7 = false -> Z.testbit a 15 = false ->
  Z.testbit a 23 = false -> Z.testbit a 31 = false ->
  Z.land a 2155905152 = 0.
Proof.
  intros B0 B1 B2 B3.
  apply Z.bits_inj'. intros n Hn.
  rewrite Z.land_spec, Z.testbit_0_l.
  destruct (Z_lt_dec n 32) as [Hlt | Hge].
  - destruct n as [|n|n]; [ | | lia ].
    + apply andb_false_intro2. reflexivity.
    + do 5 (try destruct n as [n|n|]);
        first [ lia
              | apply andb_false_intro2; reflexivity
              | apply andb_false_intro1; assumption ].
  - apply andb_false_intro2. apply Z.bits_above_log2; [lia|].
    change (Z.log2 2155905152) with 31. lia.
Qed.

(** Bit [k], the top bit of a byte [c] that is not zero: clear in
    [longword - lomagic] when [c < 128], clear in [~longword] otherwise. *)
Ltac bit_silent c :=
  rewrite Z.land_spec;
  destruct (Z_lt_dec c 128);
  [ apply andb_false_intro1 | apply andb_false_intro2 ];
  (apply Z.testbit_false; [lia|]);
  unfold Z.lnot, Z.pred; Z.div_mod_to_equations; lia.

Lemma no_zero_byte_silent_8 (x c0 c1 c2 c3 c4 c5 c6 c7 : Z) :
  0 < c0 < 256 -> 0 < c1 < 256 -> 0 < c2 < 256 -> 0 < c3 < 256 ->
  0 < c4 < 256 -> 0 < c5 < 256 -> 0 < c6 < 256 -> 0 < c7 < 256 ->
  x = c0 + 256 * c1 + 65536 * c2 + 16777216 * c3 + 4294967296 * c4
      + 1099511627776 * c5 + 281474976710656 * c6 + 72057594037927936 * c7 ->
  Z.land (Z.land ((x - 72340172838076673) mod 18446744073709551616)
                 (Z.lnot x mod 18446744073709551616))
         9259542123273814144 = 0.
Proof.
  intros H0 H1 H2 H3 H4 H5 H6 H7 Hx.
  apply land_himagic_8.
  - bit_silent c0.
  - bit_silent c1.
  - bit_silent c2.
  - bit_silent c3.
  - bit_silent c4.
  - bit_silent c5.
  - bit_silent c6.
  - bit_silent c7.
Qed.

Lemma no_zero_byte_silent_4 (x c0 c1 c2 c3 : Z) :
  0 < c0 < 256 -> 0 < c1 < 256 -> 0 < c2 < 256 -> 0 < c3 < 256 ->
  x = c0 + 256 * c1 + 65536 * c2 + 16777216 * c3 ->
  Z.land (Z.land ((x - 16843009) mod 4294967296) (Z.lnot x mod 4294967296))
         2155905152 = 0.
Proof.
  intros H0 H1 H2 H3 Hx.
  apply land_himagic_4.
  - bit_silent c0.
  - bit_silent c1.
  - bit_silent c2.
  - bit_silent c3.
Qed.

Section WordAtATimeProofs.

Variable mem : Z -> ascii.
Variable sizeof_long : Z.
Variable big_endian : bool.

Local Abbreviation char_at := (Memory.char_at mem).
Local Abbreviation load_long := (Memory.load_long mem sizeof_long big_endian).
Local Abbreviation word_loop := (Memory.word_loop mem sizeof_long big_endian).
Local Abbreviation himagic := (Memory.himagic sizeof_long).
Local Abbreviation lomagic := (Memory.lomagic sizeof_long).

Lemma load_long_4 (p : Z) :
  sizeof_long = 4 ->
  load_long p =
  if big_endian
  then char_at (p + 3) + 256 * char_at (p + 2) + 65536 * char_at (p + 1)
       + 16777216 * char_at p
  else char_at p + 256 * char_at (p + 1) + 65536 * char_at (p + 2)
       + 16777216 * char_at (p + 3).
Proof.
  intros ->. unfold Memory.load_long.
  change (Z.to_nat 4) with 4%nat.
  cbn [Memory.bytes_le Memory.bytes_be].
  replace (p + 1 + 1) with (p + 2) by lia.
  replace (p + 2 + 1) with (p + 3) by lia.
  destruct big_endian; lia.
Qed.

Lemma load_long_8 (p : Z) :
  sizeof_long = 8 ->
  load_long p =
  if big_endian
  then char_at (p + 7) + 256 * char_at (p + 6) + 65536 * char_at (p + 5)
       + 16777216 * char_at (p + 4) + 4294967296 * char_at (p + 3)
       + 1099511627776 * char_at (p + 2) + 281474976710656 * char_at (p + 1)
       + 72057594037927936 * char_at p
  else char_at p + 256 * char_at (p + 1) + 65536 * char_at (p + 2)
       + 16777216 * char_at (p + 3) + 4294967296 * char_at (p + 4)
       + 1099511627776 * char_at (p + 5) + 281474976710656 * char_at (p + 6)
       + 72057594037927936 * char_at (p + 7).
Proof.
  intros ->. unfold Memory.load_long.
  change (Z.to_nat 8) with 8%nat.
  cbn [Memory.bytes_le Memory.bytes_be].
  replace (p + 1 + 1) with (p + 2) by lia.
  replace (p + 2 + 1) with (p + 3) by lia.
  replace (p + 3 + 1) with (p + 4) by lia.
  replace (p + 4 + 1) with (p + 5) by lia.
  replace (p + 5 + 1) with (p + 6) by lia.
  replace (p + 6 + 1) with (p + 7) by lia.
  destruct big_endian; lia.
Qed.

Lemma magic_4 :
  sizeof_long = 4 -> himagic = 2155905152 /\ lomagic = 16843009.
Proof. intros ->. split; reflexivity. Qed.

Lemma magic_8 :
  sizeof_long = 8 ->
  himagic = 9259542123273814144 /\ lomagic = 72340172838076673.
Proof. intros ->. split; reflexivity. Qed.

Lemma test_fires (p j : Z) :
  sizeof_long = 4 \/ sizeof_long = 8 ->
  0 <= j < sizeof_long ->
  char_at (p + j) = 0 ->
  Memory.zero_byte_test sizeof_long (load_long p) himagic lomagic = true.
Proof.
  intros Hsize Hj Hz.
  unfold Memory.zero_byte_test, Memory.ulong.
  apply negb_true_iff, Z.eqb_neq.
  pose proof (char_at_range mem p) as R0.
  pose proof (char_at_range mem (p + 1)) as R1.
  pose proof (char_at_range mem (p + 2)) as R2.
  pose proof (char_at_range mem (p + 3)) as R3.
  pose proof (char_at_range mem (p + 4)) as R4.
  pose proof (char_at_range mem (p + 5)) as R5.
  pose proof (char_at_range mem (p + 6)) as R6.
  pose proof (char_at_range mem (p + 7)) as R7.
  assert (Hcases : j = 0 \/ j = 1 \/ j = 2 \/ j = 3 \/ j = 4 \/ j = 5 \/ j = 6 \/ j = 7)
    by lia.
  destruct Hsize as [Hs | Hs].
  - destruct (magic_4 Hs) as [-> ->]. rewrite (load_long_4 p Hs). rewrite Hs.
    change (2 ^ (8 * 4)) with 4294967296.
    assert (Hany : char_at p = 0 \/ char_at (p + 1) = 0 \/ char_at (p + 2) = 0
                   \/ char_at (p + 3) = 0).
    { destruct Hcases as [-> | [-> | [-> | [-> | Hc]]]];
        [rewrite Z.add_0_r in Hz; tauto | tauto | tauto | tauto | lia]. }
    destruct big_endian.
    + apply (zero_byte_fires_4 _ (char_at (p + 3)) (char_at (p + 2))
               (char_at (p + 1)) (char_at p)); first [assumption | lia | tauto].
    + apply (zero_byte_fires_4 _ (char_at p) (char_at (p + 1))
               (char_at (p + 2)) (char_at (p + 3))); first [assumption | lia | tauto].
  - destruct (magic_8 Hs) as [-> ->]. rewrite (load_long_8 p Hs). rewrite Hs.
    change (2 ^ (8 * 8)) with 18446744073709551616.
    assert (Hany : char_at p = 0 \/ char_at (p + 1) = 0 \/ char_at (p + 2) = 0
                   \/ char_at (p + 3) = 0 \/ char_at (p + 4) = 0
                   \/ char_at (p + 5) = 0 \/ char_at (p + 6) = 0
                   \/ char_at (p + 7) = 0).
    { destruct Hcases as [-> | [-> | [-> | [-> | [-> | [-> | [-> | ->]]]]]]];
        [rewrite Z.add_0_r in Hz; tauto | tauto ..]. }
    destruct big_endian.
    + apply (zero_byte_fires_8 _ (char_at (p + 7)) (char_at (p + 6))
               (char_at (p + 5)) (char_at (p + 4)) (char_at (p + 3))
               (char_at (p + 2)) (char_at (p + 1)) (char_at p));
        first [assumption | lia | tauto].
    + apply (zero_byte_fires_8 _ (char_at p) (char_at (p + 1))
               (char_at (p + 2)) (char_at (p + 3)) (char_at (p + 4))
               (char_at (p + 5)) (char_at (p + 6)) (char_at (p + 7)));
        first [assumption | lia | tauto].
Qed.

Hypothesis sizeof_long_4_or_8 : sizeof_long = 4 \/ sizeof_long = 8.

Local Abbreviation strlen_at := (Memory.strlen mem sizeof_long big_endian).
Local Abbreviation char_loop := (Memory.char_loop mem sizeof_long big_endian).

Lemma eqb_char_zero (p : Z) : char_at p = 0 -> (char_at p =? 0) = true.
Proof. intros ->. reflexivity. Qed.

Lemma eqb_char_nonzero (p : Z) : char_at p <> 0 -> (char_at p =? 0) = false.
Proof. apply Z.eqb_neq. Qed.

(** A round of the second loop on a longword that holds the first zero
    byte, at offset [j]. *)
Lemma word_loop_found (fuel : nat) (str p j : Z) :
  0 <= j < sizeof_long ->
  (forall i, 0 <= i < j -> char_at (p + i) <> 0) ->
  char_at (p + j) = 0 ->
  word_loop (S fuel) str p himagic lomagic = Memory.Length (p - str + j).
Proof.
  intros Hj Hnz Hz. cbn [Memory.word_loop].
  rewrite (test_fires p j sizeof_long_4_or_8 Hj Hz).
  replace (p + sizeof_long - sizeof_long) with p by lia.
  assert (Hlt : forall k, 0 <= k < j -> (char_at (p + k) =? 0) = false)
    by (intros k Hk; apply eqb_char_nonzero, Hnz, Hk).
  assert (H0 : 0 < j -> (char_at p =? 0) = false)
    by (intros H; rewrite <- (Z.add_0_r p); apply Hlt; lia).
  pose proof (eqb_char_zero _ Hz) as Hzb.
  assert (Hwide : 4 <= j -> (4 <? sizeof_long) = true)
    by (intros H; apply Z.ltb_lt; lia).
  assert (Hcases : j = 0 \/ j = 1 \/ j = 2 \/ j = 3 \/ j = 4 \/ j = 5 \/ j = 6 \/ j = 7)
    by lia.
  destruct Hcases as [-> | [-> | [-> | [-> | [-> | [-> | [-> | ->]]]]]]].
  - rewrite Z.add_0_r in Hzb. rewrite Hzb. f_equal. lia.
  - rewrite H0, Hzb by lia. reflexivity.
  - rewrite H0, (Hlt 1), Hzb by lia. reflexivity.
  - rewrite H0, (Hlt 1), (Hlt 2), Hzb by lia. reflexivity.
  - rewrite H0, (Hlt 1), (Hlt 2), (Hlt 3), Hwide, Hzb by lia. reflexivity.
  - rewrite H0, (Hlt 1), (Hlt 2), (Hlt 3), Hwide, (Hlt 4), Hzb by lia. reflexivity.
  - rewrite H0, (Hlt 1), (Hlt 2), (Hlt 3), Hwide, (Hlt 4), (Hlt 5), Hzb by lia.
    reflexivity.
  - rewrite H0, (Hlt 1), (Hlt 2), (Hlt 3), Hwide, (Hlt 4), (Hlt 5), (Hlt 6), Hzb
      by lia.
    reflexivity.
Qed.

(** A round on a longword without a zero byte goes on to the next one. *)
Lemma word_loop_skip (fuel : nat) (str p : Z) :
  (forall i, 0 <= i < sizeof_long -> char_at (p + i) <> 0) ->
  word_loop (S fuel) str p himagic lomagic
  = word_loop fuel str (p + sizeof_long) himagic lomagic.
Proof.
  intros Hnz. cbn [Memory.word_loop].
  destruct (Memory.zero_byte_test _ _ _ _); [|reflexivity].
  replace (p + sizeof_long - sizeof_long) with p by lia.
  assert (Hlt : forall k, 0 <= k < sizeof_long -> (char_at (p + k) =? 0) = false)
    by (intros k Hk; apply eqb_char_nonzero, Hnz, Hk).
  assert (H0 : (char_at p =? 0) = false)
    by (rewrite <- (Z.add_0_r p); apply Hlt; lia).
  rewrite H0, (Hlt 1), (Hlt 2), (Hlt 3) by lia.
  destruct (4 <? sizeof_long) eqn:Hw; [|reflexivity].
  apply Z.ltb_lt in Hw.
  rewrite (Hlt 4), (Hlt 5), (Hlt 6), (Hlt 7) by lia. reflexivity.
Qed.

Section FirstZero.

Variable str n : Z.
Hypothesis before_n : forall i, 0 <= i < n -> char_at (str + i) <> 0.
Hypothesis at_n : char_at (str + n) = 0.

Lemma word_loop_finds (fuel : nat) (p : Z) :
  str <= p <= str + n ->
  str + n - p < Z.of_nat fuel * sizeof_long ->
  word_loop fuel str p himagic lomagic = Memory.Length n.
Proof.
  revert p. induction fuel as [|fuel IH]; intros p Hp Hfuel.
  - cbn in Hfuel. lia.
  - destruct (Z_lt_dec (str + n - p) sizeof_long) as [Hin | Hout].
    + rewrite (word_loop_found fuel str p (str + n - p)).
      * f_equal. lia.
      * lia.
      * intros i Hi. replace (p + i) with (str + (p - str + i)) by lia.
        apply before_n. lia.
      * replace (p + (str + n - p)) with (str + n) by lia. exact at_n.
    + rewrite word_loop_skip.
      * apply IH; lia.
      * intros i Hi. replace (p + i) with (str + (p - str + i)) by lia.
        apply before_n. lia.
Qed.

Lemma char_loop_finds (fuel : nat) (p : Z) :
  str <= p <= str + n ->
  str + n - p + 2 <= Z.of_nat fuel ->
  char_loop fuel str p = Memory.Length n.
Proof.
  revert p. induction fuel as [|fuel IH]; intros p Hp Hfuel.
  - cbn in Hfuel. lia.
  - cbn [Memory.char_loop].
    destruct (Z.land p (sizeof_long - 1) =? 0); cbn [negb].
    + unfold Memory.from_aligned.
      assert (Hs : (8 <? sizeof_long) = false) by (apply Z.ltb_ge; lia).
      rewrite Hs. apply word_loop_finds; [exact Hp|].
      destruct sizeof_long_4_or_8 as [-> | ->]; lia.
    + destruct (Z.eq_dec (char_at p) 0) as [Hz | Hnz].
      * rewrite (eqb_char_zero _ Hz). f_equal.
        destruct (Z.eq_dec p (str + n)) as [-> | Hne]; [lia|].
        exfalso. apply (before_n (p - str)); [lia|].
        replace (str + (p - str)) with p by lia. exact Hz.
      * rewrite (eqb_char_nonzero _ Hnz).
        assert (p <> str + n) by (intros ->; contradiction).
        apply IH; lia.
Qed.

End FirstZero.


(** Without a zero byte in the longword the test is silent. *)
Lemma test_silent (p : Z) :
  (forall j, 0 <= j < sizeof_long -> char_at (p + j) <> 0) ->
  Memory.zero_byte_test sizeof_long (load_long p) himagic lomagic = false.
Proof.
  intros Hnz.
  unfold Memory.zero_byte_test, Memory.ulong.
  apply negb_false_iff, Z.eqb_eq.
  assert (R : forall j, 0 <= j < sizeof_long -> 0 < char_at (p + j) < 256).
  { intros j Hj. pose proof (char_at_range mem (p + j)).
    pose proof (Hnz j Hj). lia. }
  assert (R0 : 0 < char_at p < 256)
    by (rewrite <- (Z.add_0_r p); apply R; lia).
  destruct sizeof_long_4_or_8 as [Hs | Hs].
  - destruct (magic_4 Hs) as [-> ->]. rewrite (load_long_4 p Hs).
    rewrite Hs in *. change (2 ^ (8 * 4)) with 4294967296.
    pose proof (R 1) as R1. pose proof (R 2) as R2. pose proof (R 3) as R3.
    destruct big_endian.
    + apply (no_zero_byte_silent_4 _ (char_at (p + 3)) (char_at (p + 2))
               (char_at (p + 1)) (char_at p)); lia.
    + apply (no_zero_byte_silent_4 _ (char_at p) (char_at (p + 1))
               (char_at (p + 2)) (char_at (p + 3))); lia.
  - destruct (magic_8 Hs) as [-> ->]. rewrite (load_long_8 p Hs).
    rewrite Hs in *. change (2 ^ (8 * 8)) with 18446744073709551616.
    pose proof (R 1) as R1. pose proof (R 2) as R2. pose proof (R 3) as R3.
    pose proof (R 4) as R4. pose proof (R 5) as R5. pose proof (R 6) as R6.
    pose proof (R 7) as R7.
    destruct big_endian.
    + apply (no_zero_byte_silent_8 _ (char_at (p + 7)) (char_at (p + 6))
               (char_at (p + 5)) (char_at (p + 4)) (char_at (p + 3))
               (char_at (p + 2)) (char_at (p + 1)) (char_at p)); lia.
    + apply (no_zero_byte_silent_8 _ (char_at p) (char_at (p + 1))
               (char_at (p + 2)) (char_at (p + 3)) (char_at (p + 4))
               (char_at (p + 5)) (char_at (p + 6)) (char_at (p + 7))); lia.
Qed.

Lemma test_exact (p : Z) :
  Memory.zero_byte_test sizeof_long (load_long p) himagic lomagic = true <->
  exists j, 0 <= j < sizeof_long /\ char_at (p + j) = 0.
Proof.
  split.
  - intros Ht.
    assert (Hdec : forall j, char_at (p + j) = 0 \/ char_at (p + j) <> 0)
      by (intros j; destruct (Z.eq_dec (char_at (p + j)) 0); auto).
    destruct (Hdec 0) as [H0 | H0]; [exists 0; split; [lia | exact H0]|].
    destruct (Hdec 1) as [H1 | H1]; [exists 1; split; [lia | exact H1]|].
    destruct (Hdec 2) as [H2 | H2]; [exists 2; split; [lia | exact H2]|].
    destruct (Hdec 3) as [H3 | H3]; [exists 3; split; [lia | exact H3]|].
    destruct sizeof_long_4_or_8 as [Hs | Hs].
    + exfalso. rewrite test_silent in Ht; [discriminate|].
      intros j Hj.
      assert (C : j = 0 \/ j = 1 \/ j = 2 \/ j = 3) by lia.
      destruct C as [-> | [-> | [-> | ->]]]; assumption.
    + destruct (Hdec 4) as [H4 | H4]; [exists 4; split; [lia | exact H4]|].
      destruct (Hdec 5) as [H5 | H5]; [exists 5; split; [lia | exact H5]|].
      destruct (Hdec 6) as [H6 | H6]; [exists 6; split; [lia | exact H6]|].
      destruct (Hdec 7) as [H7 | H7]; [exists 7; split; [lia | exact H7]|].
      exfalso. rewrite test_silent in Ht; [discriminate|].
      intros j Hj.
      assert (C : j = 0 \/ j = 1 \/ j = 2 \/ j = 3 \/ j = 4 \/ j = 5 \/ j = 6 \/ j = 7)
        by lia.
      destruct C as [-> | [-> | [-> | [-> | [-> | [-> | [-> | ->]]]]]]]; assumption.
  - intros (j & Hj & Hz). exact (test_fires p j sizeof_long_4_or_8 Hj Hz).
Qed.

(** *** What the routine returns is the first zero byte *)

Section Sound.

Variable str : Z.

Local Abbreviation clear_to := (Memory.clear_to mem str).

Lemma clear_to_first_zero (p k : Z) :
  str <= p -> 0 <= k -> clear_to (p + k) -> char_at (p + k) = 0 ->
  Memory.first_zero mem str (p - str + k).
Proof.
  intros Hp Hk Hclear Hz. split; [lia|]. split.
  - replace (str + (p - str + k)) with (p + k) by lia. exact Hz.
  - intros i Hi. apply Hclear. lia.
Qed.

Lemma clear_to_step (p : Z) :
  clear_to p -> char_at p <> 0 -> clear_to (p + 1).
Proof.
  intros Hclear Hnz a Ha.
  destruct (Z.eq_dec a p) as [-> | Hne]; [exact Hnz | apply Hclear; lia].
Qed.

Lemma word_loop_sound (fuel : nat) (p n : Z) :
  str <= p -> clear_to p ->
  word_loop fuel str p himagic lomagic = Memory.Length n ->
  Memory.first_zero mem str n.
Proof.
  revert p. induction fuel as [|fuel IH]; intros p Hp Hclear H; [discriminate|].
  cbn [Memory.word_loop] in H.
  replace (p + sizeof_long - sizeof_long) with p in H by lia.
  destruct (Memory.zero_byte_test _ _ _ _) eqn:Ht.
  - pose proof (clear_to_first_zero p) as Hfound.
    pose proof (clear_to_step) as Hstep.
    destruct (char_at p =? 0) eqn:E0.
    { apply Z.eqb_eq in E0. inversion H. replace (p - str) with (p - str + 0) by lia.
      apply Hfound; try lia; rewrite Z.add_0_r; assumption. }
    apply Z.eqb_neq in E0. pose proof (Hstep p Hclear E0) as C1.
    destruct (char_at (p + 1) =? 0) eqn:E1.
    { apply Z.eqb_eq in E1. inversion H. apply Hfound; try lia; assumption. }
    apply Z.eqb_neq in E1. pose proof (Hstep _ C1 E1) as C2.
    replace (p + 1 + 1) with (p + 2) in C2 by lia.
    destruct (char_at (p + 2) =? 0) eqn:E2.
    { apply Z.eqb_eq in E2. inversion H. apply Hfound; try lia; assumption. }
    apply Z.eqb_neq in E2. pose proof (Hstep _ C2 E2) as C3.
    replace (p + 2 + 1) with (p + 3) in C3 by lia.
    destruct (char_at (p + 3) =? 0) eqn:E3.
    { apply Z.eqb_eq in E3. inversion H. apply Hfound; try lia; assumption. }
    apply Z.eqb_neq in E3. pose proof (Hstep _ C3 E3) as C4.
    replace (p + 3 + 1) with (p + 4) in C4 by lia.
    destruct (4 <? sizeof_long) eqn:Hw.
    + destruct (char_at (p + 4) =? 0) eqn:E4.
      { apply Z.eqb_eq in E4. inversion H. apply Hfound; try lia; assumption. }
      apply Z.eqb_neq in E4. pose proof (Hstep _ C4 E4) as C5.
      replace (p + 4 + 1) with (p + 5) in C5 by lia.
      destruct (char_at (p + 5) =? 0) eqn:E5.
      { apply Z.eqb_eq in E5. inversion H. apply Hfound; try lia; assumption. }
      apply Z.eqb_neq in E5. pose proof (Hstep _ C5 E5) as C6.
      replace (p + 5 + 1) with (p + 6) in C6 by lia.
      destruct (char_at (p + 6) =? 0) eqn:E6.
      { apply Z.eqb_eq in E6. inversion H. apply Hfound; try lia; assumption. }
      apply Z.eqb_neq in E6. pose proof (Hstep _ C6 E6) as C7.
      replace (p + 6 + 1) with (p + 7) in C7 by lia.
      destruct (char_at (p + 7) =? 0) eqn:E7.
      { apply Z.eqb_eq in E7. inversion H. apply Hfound; try lia; assumption. }
      apply Z.eqb_neq in E7. pose proof (Hstep _ C7 E7) as C8.
      replace (p + 7 + 1) with (p + 8) in C8 by lia.
      apply Z.ltb_lt in Hw.
      assert (Hs : sizeof_long = 8) by (destruct sizeof_long_4_or_8; lia).
      apply (IH (p + sizeof_long)); [lia | rewrite Hs; exact C8 | exact H].
    + apply Z.ltb_ge in Hw.
      assert (Hs : sizeof_long = 4) by (destruct sizeof_long_4_or_8; lia).
      apply (IH (p + sizeof_long)); [lia | rewrite Hs; exact C4 | exact H].
  - apply (IH (p + sizeof_long)); [destruct sizeof_long_4_or_8; lia | | exact H].
    intros a Ha.
    destruct (Z_lt_dec a p) as [Hlt | Hge]; [apply Hclear; lia|].
    destruct (Z.eq_dec (char_at a) 0) as [Hz | Hnz]; [|exact Hnz].
    exfalso.
    rewrite (test_fires p (a - p) sizeof_long_4_or_8) in Ht;
      [discriminate | lia | ].
    replace (p + (a - p)) with a by lia. exact Hz.
Qed.

Lemma char_loop_sound (fuel : nat) (p n : Z) :
  str <= p -> clear_to p ->
  char_loop fuel str p = Memory.Length n ->
  Memory.first_zero mem str n.
Proof.
  revert p. induction fuel as [|fuel IH]; intros p Hp Hclear H; [discriminate|].
  cbn [Memory.char_loop] in H.
  destruct (Z.land p (sizeof_long - 1) =? 0); cbn [negb] in H.
  - unfold Memory.from_aligned in H.
    destruct (8 <? sizeof_long); [discriminate|].
    exact (word_loop_sound fuel p n Hp Hclear H).
  - destruct (char_at p =? 0) eqn:E.
    + apply Z.eqb_eq in E. inversion H.
      replace (p - str) with (p - str + 0) by lia.
      apply clear_to_first_zero; try lia; rewrite Z.add_0_r; assumption.
    + apply Z.eqb_neq in E.
      apply (IH (p + 1)); [lia | now apply clear_to_step | exact H].
Qed.

Lemma word_loop_not_aborted (fuel : nat) (p : Z) :
  word_loop fuel str p himagic lomagic <> Memory.Aborted.
Proof.
  revert p. induction fuel as [|fuel IH]; intros p; [discriminate|].
  cbn [Memory.word_loop].
  repeat match goal with
         | |- (if ?b then _ else _) <> _ => destruct b
         end;
    first [discriminate | apply IH].
Qed.

Lemma char_loop_not_aborted (fuel : nat) (p : Z) :
  char_loop fuel str p <> Memory.Aborted.
Proof.
  revert p. induction fuel as [|fuel IH]; intros p; [discriminate|].
  cbn [Memory.char_loop].
  destruct (negb _).
  - destruct (char_at p =? 0); [discriminate | apply IH].
  - unfold Memory.from_aligned.
    assert (Hs : (8 <? sizeof_long) = false)
      by (apply Z.ltb_ge; destruct sizeof_long_4_or_8; lia).
    rewrite Hs. apply word_loop_not_aborted.
Qed.

End Sound.

Lemma holds_string_first_zero (s : string) (p : Z) :
  Memory.holds_string mem p s ->
  Memory.first_zero mem p (Z.of_nat (String.length s)).
Proof.
  revert p. induction s as [|c s IH]; intros p H; cbn [Memory.holds_string] in H.
  - split; [cbn; lia|]. split; [cbn; now rewrite Z.add_0_r | cbn; lia].
  - destruct H as (_ & Hnz & Hrest).
    destruct (IH (p + 1) Hrest) as (Hn & Hz & Hbefore).
    cbn [String.length]. rewrite Nat2Z.inj_succ. split; [lia|]. split.
    + replace (p + Z.succ (Z.of_nat (String.length s)))
        with (p + 1 + Z.of_nat (String.length s)) by lia.
      exact Hz.
    + intros i Hi. destruct (Z.eq_dec i 0) as [-> | Hne].
      * now rewrite Z.add_0_r.
      * replace (p + i) with (p + 1 + (i - 1)) by lia. apply Hbefore. lia.
Qed.

End WordAtATimeProofs.

(** X1.  When [str + n] is the first zero byte from [str] on, the routine
    returns [n] (given one round of fuel per byte and two to spare), for
    longwords of four or eight bytes in either byte order and whatever the
    alignment of [str]. *)
Theorem strlen_finds_first_zero_byte :
  forall (mem : Z -> ascii) (sizeof_long : Z) (big_endian : bool)
         (str n : Z) (fuel : nat),
    sizeof_long = 4 \/ sizeof_long = 8 ->
    Memory.first_zero mem str n ->
    (Z.to_nat n + 2 <= fuel)%nat ->
    Memory.strlen mem sizeof_long big_endian fuel str = Memory.Length n.
Proof.
  intros mem sizeof_long big_endian str n fuel Hsize (Hn & Hz & Hbefore) Hfuel.
  unfold Memory.strlen.
  apply (char_loop_finds mem sizeof_long big_endian Hsize str n Hbefore Hz);
    lia.
Qed.

(** X2.  Whatever number the routine returns is the offset of the first
    zero byte from [str] on; it never calls [abort] for longwords of four
    or eight bytes; and on a memory without a zero byte from [str] on it is
    still running however much fuel it gets. *)
Theorem strlen_returns_only_first_zero_byte :
  forall (mem : Z -> ascii) (sizeof_long : Z) (big_endian : bool)
         (str : Z) (fuel : nat),
    sizeof_long = 4 \/ sizeof_long = 8 ->
    (forall n, Memory.strlen mem sizeof_long big_endian fuel str = Memory.Length n ->
               Memory.first_zero mem str n) /\
    Memory.strlen mem sizeof_long big_endian fuel str <> Memory.Aborted /\
    ((forall a, str <= a -> Memory.char_at mem a <> 0) ->
     Memory.strlen mem sizeof_long big_endian fuel str = Memory.Running).
Proof.
  intros mem sizeof_long big_endian str fuel Hsize.
  assert (Hsound : forall n,
             Memory.strlen mem sizeof_long big_endian fuel str = Memory.Length n ->
             Memory.first_zero mem str n).
  { intros n H. unfold Memory.strlen in H.
    apply (char_loop_sound mem sizeof_long big_endian Hsize str fuel str n);
      [lia | intros a Ha; lia | exact H]. }
  assert (Hab : Memory.strlen mem sizeof_long big_endian fuel str <> Memory.Aborted)
    by apply (char_loop_not_aborted mem sizeof_long big_endian Hsize).
  split; [exact Hsound|]. split; [exact Hab|].
  intros Hnz.
  destruct (Memory.strlen mem sizeof_long big_endian fuel str) as [n| |] eqn:E.
  - destruct (Hsound n eq_refl) as (Hn & Hz & _).
    exfalso. apply (Hnz (str + n)); [lia | exact Hz].
  - now elim Hab.
  - reflexivity.
Qed.

(** X3.  The test [((longword - lomagic) & ~longword & himagic) != 0] holds
    exactly when one of the bytes of the longword is zero. *)
Theorem zero_byte_test_exact :
  forall (mem : Z -> ascii) (sizeof_long : Z) (big_endian : bool) (p : Z),
    sizeof_long = 4 \/ sizeof_long = 8 ->
    (Memory.zero_byte_test sizeof_long
       (Memory.load_long mem sizeof_long big_endian p)
       (Memory.himagic sizeof_long) (Memory.lomagic sizeof_long) = true
     <-> exists j, 0 <= j < sizeof_long /\ Memory.char_at mem (p + j) = 0).
Proof.
  intros mem sizeof_long big_endian p Hsize.
  apply (test_exact mem sizeof_long big_endian Hsize).
Qed.

(** X4.  On a memory that holds the characters of [s] and a terminator at
    [str], the routine returns the length the writer's model of [strlen]
    gives for [s]. *)
Theorem strlen_of_held_string :
  forall (mem : Z -> ascii) (sizeof_long : Z) (big_endian : bool)
         (str : Z) (s : string) (fuel : nat),
    sizeof_long = 4 \/ sizeof_long = 8 ->
    Memory.holds_string mem str s ->
    (String.length s + 2 <= fuel)%nat ->
    Memory.strlen mem sizeof_long big_endian fuel str
    = Memory.Length (Z.of_nat (strlen s)).
Proof.
  intros mem sizeof_long big_endian str s fuel Hsize Hs Hfuel.
  destruct (holds_string_first_zero mem s str Hs) as (Hn & Hz & Hbefore).
  unfold Memory.strlen, strlen.
  apply (char_loop_finds mem sizeof_long big_endian Hsize str _ Hbefore Hz);
    lia.
Qed.

(** [root] at the odd address 13, read with eight-byte little-endian
    longwords: three rounds of the first loop, one of the second. *)
Lemma strlen_finds_first_zero_byte_witness :
  Memory.first_zero (Memory.sample_memory 13 "root") 13 4 /\
  Memory.strlen (Memory.sample_memory 13 "root") 8 false 6 13 = Memory.Length 4.
Proof.
  assert (H : Memory.first_zero (Memory.sample_memory 13 "root") 13 4).
  { split; [lia|]. split; [reflexivity|].
    intros i Hi.
    assert (C : i = 0 \/ i = 1 \/ i = 2 \/ i = 3) by lia.
    destruct C as [-> | [-> | [-> | ->]]]; discriminate. }
  split; [exact H|].
  apply (strlen_finds_first_zero_byte (Memory.sample_memory 13 "root") 8 false
           13 4 6 (or_intror eq_refl) H).
  vm_compute. lia.
Defined.

Lemma strlen_returns_only_first_zero_byte_witness :
  Memory.strlen (Memory.sample_memory 13 "root") 4 true 6 13 = Memory.Length 4 /\
  Memory.first_zero (Memory.sample_memory 13 "root") 13 4.
Proof.
  split; [reflexivity|].
  apply (proj1 (strlen_returns_only_first_zero_byte
                  (Memory.sample_memory 13 "root") 4 true 13 6
                  (or_introl eq_refl))).
  reflexivity.
Defined.

Lemma zero_byte_test_exact_witness :
  Memory.zero_byte_test 8
    (Memory.load_long (Memory.sample_memory 13 "root") 8 false 16)
    (Memory.himagic 8) (Memory.lomagic 8) = true /\
  exists j, 0 <= j < 8 /\ Memory.char_at (Memory.sample_memory 13 "root") (16 + j) = 0.
Proof.
  split; [reflexivity|].
  apply (proj1 (zero_byte_test_exact (Memory.sample_memory 13 "root") 8 false 16
                  (or_intror eq_refl))).
  reflexivity.
Defined.

Lemma strlen_of_held_string_witness :
  Memory.holds_string (Memory.sample_memory 13 "root") 13 "root" /\
  Memory.strlen (Memory.sample_memory 13 "root") 8 true 6 13
  = Memory.Length (Z.of_nat (strlen "root")).
Proof.
  assert (H : Memory.holds_string (Memory.sample_memory 13 "root") 13 "root").
  { cbn [Memory.holds_string]. repeat split; discriminate. }
  split; [exact H|].
  apply (strlen_of_held_string (Memory.sample_memory 13 "root") 8 true 13 "root" 6
           (or_intror eq_refl) H).
  vm_compute. lia.
Defined.

(** ** Whole elements and documents *)

Lemma Item_forall_ind {double : Type} (P : Item double -> Prop) :
  (forall v, P (Text v)) ->
  (forall name v, P (Leaf name v)) ->
  (forall name mode closing body,
      Forall P body -> P (Elem name mode closing body)) ->
  (forall name attrs mode closing body,
      Forall P body -> P (ElemAttrs name attrs mode closing body)) ->
  forall it, P it.
Proof.
  intros HText HLeaf HElem HAttrs.
  fix IH 1. intros it.
  destruct it as [v | name v | name mode closing body | name attrs mode closing body].
  - apply HText.
  - apply HLeaf.
  - apply HElem. induction body as [|i body IHbody]; constructor; [apply IH | exact IHbody].
  - apply HAttrs. induction body as [|i body IHbody]; constructor; [apply IH | exact IHbody].
Qed.

Lemma nesting_nonneg {double : Type} (it : Item double) : 0 <= nesting it.
Proof.
  destruct it; cbn [nesting]; try lia.
  - induction body as [|i body IH]; cbn [fold_right]; lia.
  - induction body as [|i body IH]; cbn [fold_right]; lia.
Qed.

Lemma nesting_all_nonneg {double : Type} (items : list (Item double)) :
  0 <= nesting_all items.
Proof.
  unfold nesting_all. induction items as [|i items IH]; cbn [fold_right]; lia.
Qed.

(** The stack of pointers after a call, from the number of entries. *)
Lemma restack_same (old : list pointer) (p : pointer) (o' : Output) :
  List.length (mElements o') = List.length old ->
  restack old p o'
  = {| stream := mStream o'; level := mLevel o';
       attributes := mAttributes o'; pointers := old |}.
Proof.
  intros H. unfold restack. rewrite H, Nat.eqb_refl. reflexivity.
Qed.

Lemma restack_push (old : list pointer) (p : pointer) (o' : Output) :
  List.length (mElements o') = S (List.length old) ->
  restack old p o'
  = {| stream := mStream o'; level := mLevel o';
       attributes := mAttributes o'; pointers := old ++ [p] |}.
Proof.
  intros H. unfold restack. rewrite H.
  replace (S (List.length old) =? List.length old)%nat with false
    by (symmetry; apply Nat.eqb_neq; lia).
  replace (List.length old <? S (List.length old))%nat with true
    by (symmetry; apply Nat.ltb_lt; lia).
  reflexivity.
Qed.

Lemma restack_pop (old : list pointer) (p : pointer) (o' : Output) :
  S (List.length (mElements o')) = List.length old ->
  restack old p o'
  = {| stream := mStream o'; level := mLevel o';
       attributes := mAttributes o'; pointers := removelast old |}.
Proof.
  intros H. unfold restack. rewrite <- H.
  replace (List.length (mElements o') =? S (List.length (mElements o')))%nat
    with false by (symmetry; apply Nat.eqb_neq; lia).
  replace (S (List.length (mElements o')) <? List.length (mElements o'))%nat
    with false by (symmetry; apply Nat.ltb_ge; lia).
  reflexivity.
Qed.

Lemma run_shared_app {double : Type} (sprintf_g : double -> string)
      (t1 t2 : list (arrays * SharedCall double)) (s : Shared) :
  run_shared sprintf_g (t1 ++ t2) s =
  match run_shared sprintf_g t1 s with
  | SReturned s' => run_shared sprintf_g t2 s'
  | r => r
  end.
Proof.
  revert s. induction t1 as [|[mem c] t1 IH]; intros s; cbn [app run_shared].
  - reflexivity.
  - destruct (exec_shared sprintf_g mem c s); auto.
Qed.

Section Documents.

Variable double : Type.
Variable sprintf_g : double -> string.
Variable mem : arrays.

Lemma text_of_formatted (v : Value double) :
  value_nonnull v = true -> formatted sprintf_g v = Some (text_of sprintf_g v).
Proof.
  intros H. destruct (value_nonnull_formatted sprintf_g v H) as [text Ht].
  unfold text_of. now rewrite Ht.
Qed.

Lemma attr_text_of_formatted (v : AttrValue double) :
  attr_value_nonnull v = true ->
  attr_formatted sprintf_g v = Some (attr_text_of sprintf_g v).
Proof.
  intros H. destruct (attr_value_nonnull_formatted sprintf_g v H) as [text Ht].
  unfold attr_text_of. now rewrite Ht.
Qed.

(** A call that only sends text leaves the pointers where they are. *)
Lemma exec_shared_sends (c : SharedCall double) (text : string) (s : Shared) :
  exec sprintf_g (settle mem c) (as_read mem s)
  = Returned (emit text (as_read mem s)) ->
  exec_shared sprintf_g mem c s = SReturned (sent text s).
Proof.
  intros H. unfold exec_shared. rewrite H. f_equal.
  rewrite restack_same by (cbn [emit as_read mElements]; apply length_map).
  reflexivity.
Qed.

Lemma exec_shared_BeginElementAt (a : address) (mode : Mode) (s : Shared) :
  attributes s = false ->
  level s < INT_MAX ->
  exec_shared sprintf_g mem (BeginElementAt a mode) s
  = SReturned {| stream := stream s ++ tabs (Z.to_nat (level s)) ++ "<" ++ mem a
                           ++ ">" ++ line_end mode;
                 level := level s + 1;
                 attributes := false;
                 pointers := pointers s ++ [InArray a] |}.
Proof.
  intros Hattr Hmax. unfold exec_shared. cbn [settle exec pushed_by].
  rewrite (BeginElement_returns (mem a) mode (as_read mem s) Hattr Hmax).
  f_equal. rewrite restack_push; [reflexivity|].
  cbn [opened as_read mElements]. rewrite last_length, length_map. reflexivity.
Qed.

Lemma exec_shared_BeginElementAttrsAt (a : address) (s : Shared) :
  attributes s = false ->
  level s < INT_MAX ->
  exec_shared sprintf_g mem (BeginElementAttrsAt a) s
  = SReturned {| stream := stream s ++ tabs (Z.to_nat (level s)) ++ "<" ++ mem a;
                 level := level s + 1;
                 attributes := true;
                 pointers := pointers s ++ [InArray a] |}.
Proof.
  intros Hattr Hmax. unfold exec_shared. cbn [settle exec pushed_by].
  rewrite (BeginElementAttrs_returns (mem a) (as_read mem s) Hattr Hmax).
  f_equal. rewrite restack_push; [reflexivity|].
  cbn [opened_attrs as_read mElements]. rewrite last_length, length_map. reflexivity.
Qed.

Lemma exec_shared_EndAttrs (mode : Mode) (s : Shared) :
  attributes s = true ->
  exec_shared sprintf_g mem (Other (CEndAttrs mode)) s
  = SReturned {| stream := stream s ++ ">" ++ line_end mode;
                 level := level s;
                 attributes := false;
                 pointers := pointers s |}.
Proof.
  intros Hattr. unfold exec_shared. cbn [settle exec pushed_by].
  rewrite (EndAttrs_returns mode (as_read mem s) Hattr).
  f_equal. rewrite restack_same; [reflexivity|].
  cbn [attrs_closed as_read mElements]. apply length_map.
Qed.

(** [EndElement] pops the pointer pushed last and sends what its array
    holds now. *)
Lemma exec_shared_EndElement (closing : Mode) (rest : list pointer) (p : pointer)
      (name sent_so_far : string) (depth : Z) :
  read mem p = Some name ->
  0 <= depth ->
  exec_shared sprintf_g mem (Other (CEndElement closing))
    {| stream := sent_so_far; level := depth + 1;
       attributes := false; pointers := rest ++ [p] |}
  = SReturned {| stream := sent_so_far
                           ++ indent_unless_terse closing (Z.to_nat depth)
                           ++ "</" ++ name ++ ">" ++ LF;
                 level := depth;
                 attributes := false;
                 pointers := rest |}.
Proof.
  intros Hp Hdepth. unfold exec_shared. cbn [settle exec pushed_by].
  rewrite (EndElement_returns name (map (read mem) rest) closing);
    [ | cbn [as_read mElements pointers]; rewrite map_app; cbn [map];
        now rewrite Hp
      | reflexivity
      | cbn [as_read mLevel level]; lia ].
  f_equal. rewrite restack_pop.
  - cbn [closed as_read mStream mLevel mAttributes stream level attributes pointers].
    rewrite removelast_last. unfold indent_unless_terse.
    replace (depth + 1 - 1) with depth by lia. reflexivity.
  - cbn [closed mElements pointers]. rewrite last_length, length_map. reflexivity.
Qed.

Lemma run_attrs (attrs : list (string * AttrValue double)) (s : Shared) :
  forallb (fun a => attr_value_nonnull (snd a)) attrs = true ->
  attributes s = true ->
  run_shared sprintf_g
    (arrays_left_alone mem
       (map (fun a => Other (CWriteAttr (Some (fst a)) (snd a))) attrs)) s
  = SReturned (sent (render_attrs sprintf_g attrs) s).
Proof.
  unfold arrays_left_alone.
  revert s. induction attrs as [|[name v] attrs IH]; intros s Hnn Hattr;
    cbn [map run_shared render_attrs fold_right].
  - unfold sent. rewrite append_nil_r. now destruct s.
  - cbn [forallb fst snd] in *. apply andb_true_iff in Hnn. destruct Hnn as [Hv Hrest].
    rewrite (exec_shared_sends _ (attribute name (attr_text_of sprintf_g v)) s)
      by (cbn [settle exec];
          exact (WriteAttr_returns sprintf_g name _ v (as_read mem s) Hattr
                   (attr_text_of_formatted v Hv))).
    rewrite IH by assumption.
    unfold sent. cbn [stream level attributes pointers].
    now rewrite append_assoc.
Qed.

Lemma run_items (items : list (Item double)) :
  Forall (writes_markup sprintf_g mem) items ->
  forall s : Shared,
    forallb values_nonnull items = true ->
    attributes s = false ->
    0 <= level s ->
    level s + nesting_all items <= INT_MAX ->
    run_shared sprintf_g (arrays_left_alone mem (flat_map calls_of items)) s
    = SReturned (sent (render_all sprintf_g mem (Z.to_nat (level s)) items) s).
Proof.
  unfold arrays_left_alone.
  induction 1 as [|it items Hit _ IH]; intros s Hnn Hattr Hlo Hhi;
    cbn [flat_map render_all fold_right map].
  - cbn [run_shared]. unfold sent. rewrite append_nil_r. now destruct s.
  - cbn [forallb] in Hnn. apply andb_true_iff in Hnn. destruct Hnn as [Hv Hrest].
    unfold nesting_all in Hhi. cbn [fold_right] in Hhi.
    fold (nesting_all items) in Hhi.
    rewrite map_app, run_shared_app.
    unfold writes_markup, arrays_left_alone in Hit.
    rewrite (Hit s Hv Hattr Hlo) by lia.
    rewrite (IH (sent _ s) Hrest Hattr Hlo) by (cbn [sent level]; lia).
    unfold sent. cbn [stream level attributes pointers].
    fold (render_all sprintf_g mem (Z.to_nat (level s)) items).
    now rewrite append_assoc.
Qed.

Lemma writes_markup_all (it : Item double) : writes_markup sprintf_g mem it.
Proof.
  induction it as [v | name v | name mode closing body IH
                   | name attrs mode closing body IH] using Item_forall_ind;
    intros s Hnn Hattr Hlo Hhi; unfold arrays_left_alone;
    cbn [values_nonnull nesting calls_of map] in *.
  - cbn [run_shared render].
    rewrite (exec_shared_sends _ (text_of sprintf_g v) s); [reflexivity|].
    cbn [settle exec]. exact (shl_emit _ _ _ _ (text_of_formatted v Hnn)).
  - cbn [run_shared render].
    rewrite (exec_shared_sends _
               (tabs (Z.to_nat (level s)) ++ "<" ++ name ++ ">"
                ++ text_of sprintf_g v ++ "</" ++ name ++ ">" ++ LF) s);
      [reflexivity|].
    cbn [settle exec].
    apply (WriteElement_returns sprintf_g name _ v (as_read mem s)
             (text_of_formatted v Hnn) Hattr).
    cbn [as_read mLevel]. lia.
  - fold (nesting_all body) in Hhi. pose proof (nesting_all_nonneg body) as Hb.
    cbn [run_shared].
    rewrite (exec_shared_BeginElementAt name mode s Hattr) by lia.
    rewrite map_app, run_shared_app.
    pose proof (run_items body IH) as Hbody. unfold arrays_left_alone in Hbody.
    rewrite Hbody by (cbn [level attributes]; first [assumption | reflexivity | lia]).
    cbn [map run_shared]. unfold sent at 1. cbn [stream level attributes pointers].
    rewrite (exec_shared_EndElement closing (pointers s) (InArray name) (mem name))
      by first [reflexivity | assumption].
    rewrite Z2Nat.inj_add, Nat.add_1_r by lia.
    unfold sent. cbn [render].
    fold (render_all sprintf_g mem (S (Z.to_nat (level s))) body).
    rewrite Hattr, !append_assoc. reflexivity.
  - fold (nesting_all body) in Hhi. pose proof (nesting_all_nonneg body) as Hb.
    apply andb_true_iff in Hnn. destruct Hnn as [Hav Hnn].
    cbn [run_shared].
    rewrite (exec_shared_BeginElementAttrsAt name s Hattr) by lia.
    rewrite map_app, run_shared_app.
    pose proof (run_attrs attrs) as Hattrs. unfold arrays_left_alone in Hattrs.
    rewrite Hattrs by first [assumption | reflexivity].
    cbn [map run_shared].
    rewrite exec_shared_EndAttrs by reflexivity.
    rewrite map_app, run_shared_app.
    pose proof (run_items body IH) as Hbody. unfold arrays_left_alone in Hbody.
    rewrite Hbody
      by (cbn [sent level attributes]; first [assumption | reflexivity | lia]).
    cbn [map run_shared]. unfold sent.
    cbn [stream level attributes pointers].
    rewrite (exec_shared_EndElement closing (pointers s) (InArray name) (mem name))
      by first [reflexivity | assumption].
    rewrite Z2Nat.inj_add, Nat.add_1_r by lia.
    cbn [render].
    fold (render_all sprintf_g mem (S (Z.to_nat (level s))) body).
    rewrite Hattr, !append_assoc. reflexivity.
Qed.

End Documents.

(** X5.  A document body made of text, one-line elements and elements
    with or without attributes around a body of the same kind, whose
    element names are in arrays of the caller, with no null value in it,
    written while the caller leaves these arrays alone, on an object
    outside the attribute window at a depth that leaves room for its
    nesting: every call returns, the sink receives the markup of the items
    (each close tag carries the name the array of the element opened last
    and not yet closed holds, at the indentation of its open tag), and
    depth, stack of pointers and attribute window are what they were
    before. *)
Theorem document_body_markup :
  forall (double : Type) (sprintf_g : double -> string) (mem : arrays)
         (items : list (Item double)) (s : Shared),
    forallb values_nonnull items = true ->
    attributes s = false ->
    0 <= level s ->
    level s + nesting_all items <= INT_MAX ->
    run_shared sprintf_g (arrays_left_alone mem (flat_map calls_of items)) s
    = SReturned (sent (render_all sprintf_g mem (Z.to_nat (level s)) items) s).
Proof.
  intros double sprintf_g mem items s Hnn Hattr Hlo Hhi.
  apply run_items; try assumption.
  apply Forall_forall. intros it _. apply writes_markup_all.
Qed.

(** X6.  [BeginDocument], such a body and [EndDocument] on a fresh
    object, while the caller leaves the arrays of the element names alone:
    all calls return, [EndDocument] included, and the sink holds the XML
    declaration followed by the markup of the items at depth 0. *)
Theorem whole_document_markup :
  forall (double : Type) (sprintf_g : double -> string) (mem : arrays)
         (version encoding : string) (standalone : bool)
         (items : list (Item double)),
    forallb values_nonnull items = true ->
    nesting_all items <= INT_MAX ->
    run_shared sprintf_g
      (arrays_left_alone mem
         (Other (CBeginDocument (Some version) (Some encoding) standalone)
          :: flat_map calls_of items ++ [Other CEndDocument]))
      Shared_new
    = SReturned (sent (prologue version encoding standalone
                       ++ render_all sprintf_g mem 0 items) Shared_new).
Proof.
  intros double sprintf_g mem version encoding standalone items Hnn Hhi.
  unfold arrays_left_alone. cbn [map run_shared].
  rewrite (exec_shared_sends double sprintf_g mem _
             (prologue version encoding standalone) Shared_new)
    by (cbn [settle exec]; apply BeginDocument_returns).
  rewrite map_app, run_shared_app.
  pose proof (run_items double sprintf_g mem items) as Hbody.
  unfold arrays_left_alone in Hbody.
  rewrite Hbody
    by first [ apply Forall_forall; intros it _; apply writes_markup_all
             | assumption | reflexivity | cbn [sent level Shared_new]; lia ].
  cbn [map run_shared].
  rewrite (exec_shared_sends double sprintf_g mem (Other CEndDocument) EmptyString).
  - unfold sent. cbn [stream level attributes pointers Shared_new Z.to_nat].
    rewrite append_nil_r. reflexivity.
  - cbn [settle exec]. rewrite emit_nil. reflexivity.
Qed.

(** X15.  [EndElement] sends what the array of the popped pointer holds
    when the element is closed, not what it held when the element was
    opened: after [BeginElement] on a name in one of the caller's arrays,
    made while the arrays hold [mem], and [EndElement], made while they
    hold [mem'], the open tag carries the characters of [mem] and the close
    tag those of [mem']. *)
Theorem close_tag_reads_array_at_close :
  forall (double : Type) (sprintf_g : double -> string) (mem mem' : arrays)
         (name : address) (mode closing : Mode) (s : Shared),
    attributes s = false ->
    0 <= level s < INT_MAX ->
    run_shared sprintf_g
      [(mem, BeginElementAt name mode); (mem', Other (CEndElement closing))] s
    = SReturned
        (sent (tabs (Z.to_nat (level s)) ++ "<" ++ mem name ++ ">" ++ line_end mode
               ++ indent_unless_terse closing (Z.to_nat (level s))
               ++ "</" ++ mem' name ++ ">" ++ LF) s).
Proof.
  intros double sprintf_g mem mem' name mode closing s Hattr [Hlo Hhi].
  cbn [run_shared].
  rewrite (exec_shared_BeginElementAt double sprintf_g mem name mode s Hattr Hhi).
  rewrite (exec_shared_EndElement double sprintf_g mem' closing (pointers s)
             (InArray name) (mem' name)) by first [reflexivity | assumption].
  unfold sent. rewrite Hattr, !append_assoc. reflexivity.
Qed.

(** X7.  [BeginDocument] with a version and an encoding sends the XML
    declaration, the two strings as they are and [yes] or [no] for
    [standalone]; with a null version or encoding it stops at an assertion
    before anything is sent. *)
Theorem BeginDocument_declaration :
  forall (version encoding : cstr) (standalone : bool) (o : Output),
    (forall v e : string,
        version = Some v -> encoding = Some e ->
        BeginDocument version encoding standalone o
        = Returned (emit ("<?xml version=" ++ DQUOTE ++ v ++ DQUOTE
                          ++ " encoding=" ++ DQUOTE ++ e ++ DQUOTE
                          ++ " standalone=" ++ DQUOTE
                          ++ (if standalone then "yes" else "no") ++ DQUOTE
                          ++ "?>" ++ LF) o)) /\
    (version = None \/ encoding = None ->
     BeginDocument version encoding standalone o = AssertFailed o).
Proof.
  intros version encoding standalone o. split.
  - intros v e -> ->. apply BeginDocument_returns.
  - intros [-> | ->]; [reflexivity|]. destruct version; reflexivity.
Qed.

(** X8.  [writeString] sends the characters of its argument, [writeLine]
    the same characters and one line feed; on a null pointer both stop at
    their assertion with nothing sent. *)
Theorem writeString_writeLine_text :
  forall (str : cstr) (o : Output),
    (forall s : string,
        str = Some s ->
        writeString str o = Returned (emit s o) /\
        writeLine str o = Returned (emit (s ++ LF) o)) /\
    (str = None ->
     writeString str o = AssertFailed o /\ writeLine str o = AssertFailed o).
Proof.
  intros str o. split.
  - intros s ->. split; [apply writeString_emit|].
    cbn [writeLine]. rewrite seq_apply, write_whole. cbv beta iota.
    change 1%nat with (strlen LF). rewrite write_whole, emit_emit. reflexivity.
  - intros ->. split; reflexivity.
Qed.

(** X9.  [writeString], [writeLine], every [operator<<], [BeginDocument]
    and [Indent] leave depth, open elements and attribute window as they
    were, whether they return or stop at an assertion, and do nothing
    undefined. *)
Theorem output_calls_keep_nesting :
  forall (double : Type) (sprintf_g : double -> string)
         (c : Call double) (o : Output),
    output_only c = true ->
    ends_in (same_nesting o) (exec sprintf_g c o).
Proof.
  intros double sprintf_g c o Hc.
  apply (ends_in_impl _ _ _ (nesting_view_inv o)).
  destruct c; try discriminate; cbn [exec].
  - apply (preserves_writeString _ nesting_view nesting_view_emit).
  - apply (preserves_writeLine _ nesting_view nesting_view_emit).
  - apply (preserves_shl _ nesting_view nesting_view_emit).
  - apply (preserves_BeginDocument _ nesting_view nesting_view_emit).
  - apply (preserves_Indent _ nesting_view nesting_view_emit).
Qed.

Lemma BeginElement_inside_window (name : cstr) (mode : Mode) (o : Output) :
  mAttributes o = true -> BeginElement name mode o = AssertFailed o.
Proof.
  intros Hattr. destruct name as [n|]; [|reflexivity].
  unfold BeginElement. rewrite seq_apply. unfold assert at 1. cbn [nonnull].
  rewrite seq_apply. unfold assert_this at 1. rewrite Hattr. reflexivity.
Qed.

Lemma EndElement_fails (mode : Mode) (o : Output) :
  mElements o = [] \/ mAttributes o = true \/ mLevel o <= 0 ->
  EndElement mode o = AssertFailed o.
Proof.
  intros H. unfold EndElement.
  rewrite seq_apply. unfold assert_this at 1.
  destruct (mElements o) as [|x l] eqn:El; [reflexivity|].
  cbn [List.length Nat.ltb Nat.leb].
  rewrite seq_apply. unfold assert_this at 1.
  destruct (mAttributes o) eqn:Ha; [reflexivity|]. cbn [negb].
  rewrite seq_apply. unfold assert_this at 1.
  destruct H as [H | [H | H]]; try discriminate.
  apply Z.ltb_ge in H. rewrite H. reflexivity.
Qed.

(** X10.  While the attribute window is open, [BeginElement],
    [BeginElementAttrs], [EndElement], every [WriteElement] and
    [EndDocument] stop at an assertion before anything is sent, whatever
    their arguments; while it is closed, so do [EndAttrs] and every
    [WriteAttr].  The object is as it was. *)
Theorem window_decides_the_calls :
  forall (double : Type) (sprintf_g : double -> string)
         (c : Call double) (o : Output),
    (mAttributes o = true -> outside_window_only c = true ->
     exec sprintf_g c o = AssertFailed o) /\
    (mAttributes o = false -> inside_window_only c = true ->
     exec sprintf_g c o = AssertFailed o).
Proof.
  intros double sprintf_g c o. split; intros Hattr Hc;
    destruct c; try discriminate; cbn [exec].
  - unfold EndDocument. rewrite seq_apply. unfold assert_this at 1.
    rewrite Hattr. reflexivity.
  - now apply BeginElement_inside_window.
  - destruct name as [n|]; [|reflexivity].
    unfold BeginElementAttrs. rewrite seq_apply. unfold assert at 1. cbn [nonnull].
    rewrite seq_apply. unfold assert_this at 1. rewrite Hattr. reflexivity.
  - apply EndElement_fails. auto.
  - destruct name as [n|]; [|destruct v; reflexivity].
    destruct v as [str|[str|]|value|value|value|value]; cbn [WriteElement];
      unfold WriteElement_string, WriteElement_cstr, WriteElement_int,
             WriteElement_unsigned, WriteElement_double, WriteElement_bool;
      try reflexivity;
      rewrite seq_apply; unfold assert at 1; cbn [nonnull];
      try (rewrite seq_apply; unfold assert at 1; cbn [nonnull]);
      rewrite seq_apply, (BeginElement_inside_window _ _ _ Hattr); reflexivity.
  - unfold EndAttrs. rewrite seq_apply. unfold assert_this at 1.
    rewrite Hattr. reflexivity.
  - now apply WriteAttr_outside_window.
Qed.

(** X11.  [EndElement] returns exactly when there is an open element,
    whose name pointer is not null, the attribute window is closed and the
    depth is positive; with no open element, an open window or a depth of
    zero or less it stops at an assertion before anything is sent. *)
Theorem EndElement_returns_exactly :
  forall (mode : Mode) (o : Output),
    (returns (EndElement mode o) <->
     (exists (name : string) (rest : list cstr),
         mElements o = (rest ++ [Some name])%list) /\
     mAttributes o = false /\ 0 < mLevel o) /\
    (mElements o = [] \/ mAttributes o = true \/ mLevel o <= 0 ->
     EndElement mode o = AssertFailed o).
Proof.
  intros mode o. split; [split|].
  - intros [o' H]. apply EndElement_inv in H.
    destruct H as (name & rest & Hel & Ha & Hl & _). eauto.
  - intros ((name & rest & Hel) & Ha & Hl).
    rewrite (EndElement_returns name rest mode o Hel Ha Hl).
    unfold returns. eauto.
  - apply EndElement_fails.
Qed.

Lemma exec_window_inside_element {double : Type} (sprintf_g : double -> string)
      (c : Call double) (o o' : Output) :
  exec sprintf_g c o = Returned o' ->
  (mAttributes o = true -> mElements o <> []) ->
  mAttributes o' = true -> mElements o' <> [].
Proof.
  intros H Hinv.
  assert (Hkeep : nesting_view o' = nesting_view o ->
                  mAttributes o' = true -> mElements o' <> []).
  { intros Hv. apply nesting_view_inv in Hv. destruct Hv as (_ & -> & ->).
    exact Hinv. }
  destruct c; cbn [exec] in H.
  - apply Hkeep. exact (returned_preserved _ _ _ _
      (preserves_writeString _ nesting_view nesting_view_emit _) H).
  - apply Hkeep. exact (returned_preserved _ _ _ _
      (preserves_writeLine _ nesting_view nesting_view_emit _) H).
  - apply Hkeep. exact (returned_preserved _ _ _ _
      (preserves_shl _ nesting_view nesting_view_emit _ _) H).
  - apply Hkeep. exact (returned_preserved _ _ _ _
      (preserves_BeginDocument _ nesting_view nesting_view_emit _ _ _) H).
  - apply Hkeep. exact (returned_preserved _ _ _ _
      (preserves_EndDocument _ nesting_view) H).
  - apply Hkeep. exact (returned_preserved _ _ _ _
      (preserves_Indent _ nesting_view nesting_view_emit) H).
  - apply BeginElement_inv in H. destruct H as (n & _ & _ & _ & ->).
    discriminate.
  - apply BeginElementAttrs_inv in H. destruct H as (n & _ & _ & _ & ->).
    intros _. cbn [opened_attrs mElements]. intros E.
    destruct (mElements o); discriminate.
  - apply EndAttrs_inv in H. destruct H as [_ ->]. discriminate.
  - apply EndElement_inv in H. destruct H as (n & rest & _ & _ & _ & ->).
    discriminate.
  - assert (Ha' : mAttributes o' = false).
    { assert (Hb : exists m o1,
                 (BeginElement name terse ;; m ;; EndElement terse) o1 = Returned o').
      { destruct v; cbn [WriteElement] in H;
          unfold WriteElement_string, WriteElement_cstr, WriteElement_int,
                 WriteElement_unsigned, WriteElement_double, WriteElement_bool in H;
          apply seq_inv in H; destruct H as (o1 & H1 & H);
          apply assert_inv in H1; destruct H1 as [_ ->];
          try (apply seq_inv in H; destruct H as (o2 & H2 & H);
               apply assert_inv in H2; destruct H2 as [_ ->]);
          eauto. }
      destruct Hb as (m & o1 & Hb).
      apply seq_inv in Hb. destruct Hb as (o2 & _ & Hb).
      apply seq_inv in Hb. destruct Hb as (o3 & _ & Hb).
      apply EndElement_inv in Hb. destruct Hb as (n & rest & _ & _ & _ & ->).
      reflexivity. }
    rewrite Ha'. discriminate.
  - apply Hkeep. exact (returned_preserved _ _ _ _
      (preserves_WriteAttr _ nesting_view nesting_view_emit _ _ _) H).
Qed.

(** X12.  After any sequence of calls on a fresh [Output] that all
    returned: the depth is not negative, no pointer on the element stack
    is null, and the attribute window is only open inside an element. *)
Theorem reachable_state_invariants :
  forall (double : Type) (sprintf_g : double -> string)
         (calls : list (Call double)) (o : Output),
    run sprintf_g calls Output_new = Returned o ->
    0 <= mLevel o /\
    names_nonnull o /\
    (mAttributes o = true -> mElements o <> []).
Proof.
  intros double sprintf_g calls o Hrun. split; [|split].
  - pose proof (run_depth_matches sprintf_g calls Output_new o eq_refl Hrun) as H.
    unfold depth_matches in H. lia.
  - apply (run_names_nonnull sprintf_g calls Output_new o); [constructor | exact Hrun].
  - assert (Hgen : forall cs o1 o2,
               (mAttributes o1 = true -> mElements o1 <> []) ->
               run sprintf_g cs o1 = Returned o2 ->
               mAttributes o2 = true -> mElements o2 <> []).
    { induction cs as [|c cs IH]; intros o1 o2 Hinv H.
      - inversion H. subst. exact Hinv.
      - cbn [run] in H. apply seq_inv in H. destruct H as (o3 & H1 & H).
        apply (IH o3 o2); [|exact H].
        exact (exec_window_inside_element _ _ _ _ H1 Hinv). }
    apply (Hgen calls Output_new o); [discriminate | exact Hrun].
Qed.

(** A [root] element, its name in the array at address 1, with a one-line
    [child] and an [item], its name in the array at address 2, that has an
    attribute and a text, all on one line. *)
Lemma document_body_markup_witness :
  forallb (@values_nonnull unit)
    [Elem 1 normal normal
       [Leaf "child" (VInt 5);
        ElemAttrs 2 [("id", AInt 7)] terse terse [Text (VBool true)]]]
  = true /\
  run_shared sprintf_g_unit
    (arrays_left_alone sample_arrays
       (flat_map calls_of
          [Elem 1 normal normal
             [Leaf "child" (VInt 5);
              ElemAttrs 2 [("id", AInt 7)] terse terse [Text (VBool true)]]]))
    Shared_new
  = SReturned
      (sent ("<root>" ++ LF ++ TAB ++ "<child>5</child>" ++ LF
             ++ TAB ++ "<item id=" ++ DQUOTE ++ "7" ++ DQUOTE ++ ">True</item>" ++ LF
             ++ "</root>" ++ LF) Shared_new).
Proof.
  split; [reflexivity|].
  apply (document_body_markup unit sprintf_g_unit sample_arrays
           [Elem 1 normal normal
              [Leaf "child" (VInt 5);
               ElemAttrs 2 [("id", AInt 7)] terse terse [Text (VBool true)]]]
           Shared_new eq_refl eq_refl (Z.le_refl 0)).
  vm_compute. discriminate.
Defined.

Lemma whole_document_markup_witness :
  run_shared sprintf_g_unit
    (arrays_left_alone sample_arrays
       (Other (CBeginDocument (Some "1.0") (Some "UTF-8") true)
        :: flat_map calls_of [Elem 1 normal normal [Leaf "child" (VInt 5)]]
        ++ [Other CEndDocument]))
    Shared_new
  = SReturned
      (sent (prologue "1.0" "UTF-8" true
             ++ "<root>" ++ LF ++ TAB ++ "<child>5</child>" ++ LF ++ "</root>" ++ LF)
            Shared_new).
Proof.
  apply (whole_document_markup unit sprintf_g_unit sample_arrays "1.0" "UTF-8" true
           [Elem 1 normal normal [Leaf "child" (VInt 5)]] eq_refl).
  vm_compute. discriminate.
Defined.

(** [BeginElement] on the array that holds [root], the caller writes
    [rxxt] over it, [EndElement]. *)
Lemma close_tag_reads_array_at_close_witness :
  run_shared sprintf_g_unit
    [(sample_arrays, BeginElementAt 1 normal);
     (sample_arrays_overwritten, Other (CEndElement normal))]
    Shared_new
  = SReturned (sent ("<root>" ++ LF ++ "</rxxt>" ++ LF) Shared_new).
Proof.
  apply (close_tag_reads_array_at_close unit sprintf_g_unit
           sample_arrays sample_arrays_overwritten 1 normal normal Shared_new
           eq_refl).
  split; [discriminate | reflexivity].
Defined.

Lemma BeginDocument_declaration_witness :
  BeginDocument (Some "1.0") (Some "UTF-8") false Output_new
  = Returned (emit ("<?xml version=" ++ DQUOTE ++ "1.0" ++ DQUOTE
                    ++ " encoding=" ++ DQUOTE ++ "UTF-8" ++ DQUOTE
                    ++ " standalone=" ++ DQUOTE ++ "no" ++ DQUOTE ++ "?>" ++ LF)
                   Output_new) /\
  BeginDocument (Some "1.0") None false Output_new = AssertFailed Output_new.
Proof.
  split.
  - apply (proj1 (BeginDocument_declaration (Some "1.0") (Some "UTF-8") false
                    Output_new) "1.0" "UTF-8" eq_refl eq_refl).
  - apply (proj2 (BeginDocument_declaration (Some "1.0") None false Output_new)).
    right. reflexivity.
Defined.

Lemma writeString_writeLine_text_witness :
  writeLine (Some "abc") Output_new = Returned (emit ("abc" ++ LF) Output_new) /\
  writeLine None Output_new = AssertFailed Output_new.
Proof.
  split.
  - apply (proj1 (writeString_writeLine_text (Some "abc") Output_new) "abc" eq_refl).
  - apply (proj2 (writeString_writeLine_text None Output_new) eq_refl).
Defined.

Lemma output_calls_keep_nesting_witness :
  output_only (CwriteLine (double := unit) (Some "abc")) = true /\
  ends_in (same_nesting (opened_attrs "item" Output_new))
          (exec sprintf_g_unit (CwriteLine (Some "abc"))
                (opened_attrs "item" Output_new)).
Proof.
  split; [reflexivity|].
  apply (output_calls_keep_nesting unit sprintf_g_unit (CwriteLine (Some "abc"))
           (opened_attrs "item" Output_new) eq_refl).
Defined.

Lemma window_decides_the_calls_witness :
  exec sprintf_g_unit (CBeginElement (Some "x") normal)
       (opened_attrs "item" Output_new)
  = AssertFailed (opened_attrs "item" Output_new) /\
  exec sprintf_g_unit (CEndAttrs normal) Output_new = AssertFailed Output_new.
Proof.
  split.
  - apply (proj1 (window_decides_the_calls unit sprintf_g_unit
                    (CBeginElement (Some "x") normal)
                    (opened_attrs "item" Output_new)) eq_refl eq_refl).
  - apply (proj2 (window_decides_the_calls unit sprintf_g_unit
                    (CEndAttrs normal) Output_new) eq_refl eq_refl).
Defined.

Lemma EndElement_returns_exactly_witness :
  returns (EndElement normal (opened "root" normal Output_new)) /\
  EndElement normal Output_new = AssertFailed Output_new.
Proof.
  split.
  - apply (proj2 (proj1 (EndElement_returns_exactly normal
                           (opened "root" normal Output_new)))).
    split; [exists "root", []; reflexivity|]. split; reflexivity.
  - apply (proj2 (EndElement_returns_exactly normal Output_new)).
    left. reflexivity.
Defined.

Lemma reachable_state_invariants_witness :
  run sprintf_g_unit [CBeginElementAttrs (Some "item")] Output_new
  = Returned (opened_attrs "item" Output_new) /\
  0 <= mLevel (opened_attrs "item" Output_new) /\
  names_nonnull (opened_attrs "item" Output_new) /\
  (mAttributes (opened_attrs "item" Output_new) = true ->
   mElements (opened_attrs "item" Output_new) <> []).
Proof.
  split; [reflexivity|].
  apply (reachable_state_invariants unit sprintf_g_unit
           [CBeginElementAttrs (Some "item")] (opened_attrs "item" Output_new)).
  reflexivity.
Defined.

(** X13.  [Indent] returns in every state: it sends one tab per unit of
    [mLevel], none at all when [mLevel] is zero or negative, and changes
    nothing else. *)
Theorem Indent_sends_depth_tabs :
  forall o : Output,
    Indent o = Returned (emit (tabs (Z.to_nat (mLevel o))) o) /\
    Z.of_nat (String.length (tabs (Z.to_nat (mLevel o)))) = Z.max 0 (mLevel o) /\
    (mLevel o <= 0 -> Indent o = Returned o).
Proof.
  intros o. split; [apply Indent_emit|]. split.
  - rewrite tabs_length. lia.
  - intros H. rewrite Indent_emit.
    replace (Z.to_nat (mLevel o)) with 0%nat by lia.
    cbn [tabs]. now rewrite emit_nil.
Qed.

Lemma Indent_sends_depth_tabs_witness :
  mLevel (opened "root" normal Output_new) = 1 /\
  Indent (opened "root" normal Output_new)
  = Returned (emit TAB (opened "root" normal Output_new)) /\
  Indent Output_new = Returned Output_new.
Proof.
  split; [reflexivity|]. split.
  - apply (proj1 (Indent_sends_depth_tabs (opened "root" normal Output_new))).
  - apply (proj2 (proj2 (Indent_sends_depth_tabs Output_new))). reflexivity.
Defined.

(** X14.  Every [WriteElement] overload, with a name and a value that are
    not null, outside the attribute window and at a depth from 0 to below
    [INT_MAX]: it returns, the sink has received one line, [mLevel] tabs,
    [<name>], the text of the value as it is, [</name>] and a line feed,
    and the members are what they were. *)
Theorem WriteElement_one_line :
  forall (double : Type) (sprintf_g : double -> string)
         (name text : string) (v : Value double) (o : Output),
    formatted sprintf_g v = Some text ->
    mAttributes o = false ->
    0 <= mLevel o < INT_MAX ->
    WriteElement sprintf_g (Some name) v o
    = Returned (emit (tabs (Z.to_nat (mLevel o)) ++ "<" ++ name ++ ">" ++ text
                      ++ "</" ++ name ++ ">" ++ LF) o).
Proof.
  intros double sprintf_g name text v o Hv Hattr Hlev.
  now apply WriteElement_returns.
Qed.

Lemma WriteElement_one_line_witness :
  WriteElement sprintf_g_unit (Some "child") (VString "a<b")
               (opened "root" normal Output_new)
  = Returned (emit (TAB ++ "<child>a<b</child>" ++ LF)
                   (opened "root" normal Output_new)).
Proof.
  apply (WriteElement_one_line unit sprintf_g_unit "child" "a<b" (VString "a<b")
           (opened "root" normal Output_new) eq_refl eq_refl).
  split; [discriminate | reflexivity].
Defined.
